(** * Verification of the Mu importer (import_mu.py)

    A shallow embedding of the pure parts of [import_mu.py]: the raster
    container decoder [load_mbm] with its bump remap [convert_bump], the
    path indexer [create_object_paths], the lookup-path computation of
    [create_action] and the friction copy [copy_friction].

    Python integers are [Z]; a [bytes] object or a list of ints is a
    [list Z] when it is indexed and a [list byte] when it is file content;
    [str] is [string]; the two tables filled by the path indexer are
    insertion-ordered dictionaries, as Python's are; objects whose
    attributes are assigned are attribute maps ([gmap string _]). *)

From Stdlib Require Import ZArith Lia.
From Stdlib Require Strings.Byte.
From Stdlib Require Import Strings.Ascii.
From stdpp Require Import base tactics option list list_numbers strings gmap.

Local Open Scope Z_scope.

(** ** Exceptions *)

(** The exceptions the modelled code can raise.  The two bare [raise]
    statements of [load_mbm] both surface in Python as a [RuntimeError]
    (there is no active exception to re-raise); the constructors keep the
    two raise sites apart: [BadMagic] is the one of line 351,
    [UnsupportedPixelFormat] the one of line 361. *)
Inductive exn : Type :=
  | StructError            (* unpack("<5i", ...) on a buffer that is not 20 bytes *)
  | BadMagic               (* raise after the magic test *)
  | UnsupportedPixelFormat (* raise in the final else of the bpp test *)
  | ValueError             (* read(n) with n < -1 *)
  | IndexError             (* p[3] / p[2] on a short slice, pop() on [] *)
  | AttributeError.        (* reading an attribute that was never set *)

Inductive result (A : Type) : Type :=
  | Ok (a : A)
  | Raise (e : exn).
Arguments Ok {A} a.
Arguments Raise {A} e.

Definition rbind {A B} (m : result A) (f : A -> result B) : result B :=
  match m with
  | Ok a => f a
  | Raise e => Raise e
  end.

Notation "'let*' p := m 'in' k" := (rbind m (fun p => k))
  (at level 10, p pattern, m at level 100, k at level 200,
   format "'[v' 'let*'  p  :=  m  'in' '/' k ']'").

Definition of_option {A} (e : exn) (o : option A) : result A :=
  match o with
  | Some a => Ok a
  | None => Raise e
  end.

(** [returns m P]: [m] returns normally, with a value that satisfies [P]. *)
Definition returns {A} (m : result A) (P : A -> Prop) : Prop :=
  match m with
  | Ok a => P a
  | Raise _ => False
  end.

(** A [for] loop whose body may raise: the state is threaded through the
    iterations and the first exception ends the loop. *)
Fixpoint for_each {A S} (body : S -> A -> result S) (s : S) (l : list A)
  : result S :=
  match l with
  | [] => Ok s
  | a :: l' => let* s' := body s a in for_each body s' l'
  end.

(** ** Python sequences *)

Module Py.

(** [range(a, b)] *)
Definition range (a b : Z) : list Z := seqZ a (b - a).

(** How a slice bound is adjusted to a sequence of length [len]. *)
Definition clamp (i len : Z) : Z :=
  if i <? 0 then Z.max (i + len) 0 else Z.min i len.

(** [l[i:j]] *)
Definition slice {A} (l : list A) (i j : Z) : list A :=
  let len := Z.of_nat (length l) in
  let lo := clamp i len in
  let hi := clamp j len in
  take (Z.to_nat (hi - lo)) (drop (Z.to_nat lo) l).

(** [l[i:j] = v] on a list: the slice is replaced by [v], whatever the
    length of [v]. *)
Definition slice_assign {A} (l : list A) (i j : Z) (v : list A) : list A :=
  let len := Z.of_nat (length l) in
  let lo := clamp i len in
  let hi := Z.max lo (clamp j len) in
  take (Z.to_nat lo) l ++ v ++ drop (Z.to_nat hi) l.

(** [l[i]]; [None] stands for IndexError. *)
Definition getitem {A} (l : list A) (i : Z) : option A :=
  let len := Z.of_nat (length l) in
  let k := if i <? 0 then i + len else i in
  if (0 <=? k) && (k <? len) then l !! Z.to_nat k else None.

(** [l * n] on a list *)
Definition repeat {A} (l : list A) (n : Z) : list A :=
  mjoin (replicate (Z.to_nat n) l).

End Py.

(** ** convert_bump (lines 332-343) *)

(** The body of the inner loop at [(y, x)]: [pixels] is only read, [outp]
    is the list being rewritten. *)
Definition bump_pixel (pixels : list Z) (width : Z) (outp : list Z)
    (y x : Z) : result (list Z) :=
  let index := (y * width + x) * 4 in
  let p := Py.slice pixels index (index + 4) in
  let* p3 := of_option IndexError (Py.getitem p 3) in  (* nx = (p[3]-128) / 127. *)
  let* p2 := of_option IndexError (Py.getitem p 2) in  (* nz = (p[2]-128) / 127. *)
  let n := [p3; p2; 255; 255] in
  Ok (Py.slice_assign outp index (index + 4) n).

Definition convert_bump (pixels : list Z) (width height : Z)
  : result (list Z) :=
  let outp := pixels in                       (* outp = list(pixels) *)
  for_each (fun outp y =>
      for_each (fun outp x => bump_pixel pixels width outp y x)
               outp (Py.range 1 (width - 1)))
    outp (Py.range 1 (height - 1)).

(** The four channels of the pixel in column [x] of row [y]. *)
Definition pixel_at (buf : list Z) (width x y : Z) : list Z :=
  let index := (y * width + x) * 4 in
  Py.slice buf index (index + 4).

Definition on_border (width height x y : Z) : Prop :=
  x = 0 \/ x = width - 1 \/ y = 0 \/ y = height - 1.

Definition in_interior (width height x y : Z) : Prop :=
  1 <= x < width - 1 /\ 1 <= y < height - 1.

(** *** Pixel numbers *)

(** The element index of channel [c] of the pixel with number [q]; the
    pixel in column [x] of row [y] has number [y * width + x]. *)
Definition channel (q c : Z) : nat := Z.to_nat (q * 4 + c).

(** What one iteration of [convert_bump] stores in channel [c] of the
    pixel it rewrites. *)
Definition bump_channel (pixels : list Z) (q c : Z) : option Z :=
  if c =? 0 then pixels !! channel q 3
  else if c =? 1 then pixels !! channel q 2
  else Some 255.

(** The pixel numbers the two loops of [convert_bump] go through. *)
Definition bump_numbers (width height : Z) : list Z :=
  Py.range 1 (height - 1) ≫= fun y =>
    (fun x => y * width + x) <$> Py.range 1 (width - 1).

(** ** load_mbm (lines 346-364) *)

Abbreviation byte := Byte.byte.

(** The value of a byte as a Python int, as [list(p)] or indexing gives it. *)
Definition byte_to_Z (b : byte) : Z := Z.of_N (Byte.to_N b).

(** A file opened with [open(path, "rb")]: the bytes not yet read. *)
Abbreviation file := (list byte).

(** [mbmfile.read(n)]: at most [n] bytes, fewer at the end of the file;
    [-1] reads everything and a smaller size is refused.  The result is
    the bytes read and the file after the read. *)
Definition read (f : file) (n : Z) : result (list byte * file) :=
  if n <? -1 then Raise ValueError
  else if n =? -1 then Ok (f, [])
  else Ok (take (Z.to_nat n) f, drop (Z.to_nat n) f).

(** One [i] of a [struct] format in little-endian order: a signed 32-bit
    integer. *)
Definition le_int32 (b0 b1 b2 b3 : byte) : Z :=
  let u := Z.lor (byte_to_Z b0)
             (Z.lor (Z.shiftl (byte_to_Z b1) 8)
                (Z.lor (Z.shiftl (byte_to_Z b2) 16)
                       (Z.shiftl (byte_to_Z b3) 24))) in
  if u <? 2 ^ 31 then u else u - 2 ^ 32.

(** [unpack("<5i", header)] *)
Definition unpack_5i (header : list byte) : result (Z * Z * Z * Z * Z) :=
  match header with
  | [a0; a1; a2; a3; b0; b1; b2; b3; c0; c1; c2; c3;
     d0; d1; d2; d3; e0; e1; e2; e3] =>
      Ok (le_int32 a0 a1 a2 a3, le_int32 b0 b1 b2 b3, le_int32 c0 c1 c2 c3,
          le_int32 d0 d1 d2 d3, le_int32 e0 e1 e2 e3)
  | _ => Raise StructError
  end.

Definition mbm_magic : Z := 0x50534b03.

(** The body of the 24-bit loop: read one triple and store it over the
    first three channels of pixel [i]. *)
Definition read_rgb (st : file * list Z) (i : Z) : result (file * list Z) :=
  let '(mbmfile, pixels) := st in
  let* (p, mbmfile) := read mbmfile 3 in
  let l := i * 4 in
  Ok (mbmfile, Py.slice_assign pixels l (l + 3) (byte_to_Z <$> p)).

(** The pixel buffer of [load_mbm] before the bump test: the [bpp]
    branches of lines 352-361. *)
Definition load_mbm_pixels (mbmfile : file) (width height bpp : Z)
  : result (list Z) :=
  if bpp =? 32 then
    let* (pixels, _) := read mbmfile (width * height * 4) in
    Ok (byte_to_Z <$> pixels)
  else if bpp =? 24 then
    let pixels := Py.repeat (Py.repeat [0; 0; 0; 255] width) height in
    let* (_, pixels) := for_each read_rgb (mbmfile, pixels)
                                  (Py.range 0 (width * height)) in
    Ok pixels
  else Raise UnsupportedPixelFormat.

Definition load_mbm (mbmfile : file) : result (Z * Z * list Z) :=
  let* (header, mbmfile) := read mbmfile 20 in
  let* (magic, width, height, bump, bpp) := unpack_5i header in
  if negb (magic =? mbm_magic) then Raise BadMagic
  else
    let* pixels := load_mbm_pixels mbmfile width height bpp in
    let* pixels := (if negb (bump =? 0)
                    then convert_bump pixels width height
                    else Ok pixels) in
    Ok (width, height, pixels).

(** The header fields of a file that has a full header. *)
Definition header_fields (f : file) : option (Z * Z * Z * Z * Z) :=
  match unpack_5i (take 20 f) with
  | Ok h => Some h
  | Raise _ => None
  end.

(** What follows the 20-byte header. *)
Definition payload (f : file) : list byte := drop 20 f.

(** The encoding of a header, to write files down. *)
Definition le_bytes (n : Z) : list byte :=
  (fun k => default Byte.x00
              (Byte.of_N (Z.to_N (Z.land (Z.shiftr n (8 * k)) 255))))
    <$> [0; 1; 2; 3].

Definition mbm_file (magic width height bump bpp : Z) (data : list byte)
  : file :=
  le_bytes magic ++ le_bytes width ++ le_bytes height ++ le_bytes bump
    ++ le_bytes bpp ++ data.

(** ** Insertion-ordered dictionaries *)

(** A Python [dict]: the keys are unique and stay in the order of their
    first insertion; assigning to a key that is present replaces its value
    in place. *)
Module PyDict.
Section dict.
Context {K V : Type} `{EqDecision K}.

(** [d[k] = v] *)
Fixpoint set (k : K) (v : V) (d : list (K * V)) : list (K * V) :=
  match d with
  | [] => [(k, v)]
  | (k', v') :: d' =>
      if decide (k' = k) then (k', v) :: d' else (k', v') :: set k v d'
  end.

(** [d[k]], with [None] for KeyError; [k in d] is [is_Some (get k d)]. *)
Fixpoint get (k : K) (d : list (K * V)) : option V :=
  match d with
  | [] => None
  | (k', v') :: d' => if decide (k' = k) then Some v' else get k d'
  end.

(** A sequence of assignments, first to last. *)
Definition set_all (kvs : list (K * V)) (d : list (K * V)) : list (K * V) :=
  foldl (fun d kv => set kv.1 kv.2 d) d kvs.
End dict.
End PyDict.

(** ** create_object_paths (lines 427-440) *)

(** A decoded node, as far as the path indexer looks at it: the name of
    its transform and its children in decoded order. *)
#[warnings="-register-all"]
Inductive MuObj : Type :=
  MuObject { transform_name : string; children : list MuObj }.

(** The identity of a node object: the child indices that lead to it from
    the root.  A decoded tree shares no node, so a node is its position. *)
Abbreviation ref := (list nat).

(** The model root, as far as the path indexer uses it: the root node, the
    two tables, and the [path] attribute of the nodes that have one. *)
Record Mu : Type := MkMu {
  obj : MuObj;
  objects : list (string * ref);
  object_paths : list (string * ref);
  node_path : gmap ref string
}.

(** [parents.pop()] *)
Definition list_pop {A} (l : list A) : result (list A) :=
  match l with
  | [] => Raise IndexError
  | _ => Ok (removelast l)
  end.

(** The loop [for child in obj.children: ...], from the child of index [i]
    on; [visit_child] is the recursive call on one child. *)
Definition for_children
    (visit_child : Mu -> nat -> MuObj -> list string -> result (Mu * list string))
  : nat -> list MuObj -> Mu * list string -> result (Mu * list string) :=
  fix loop (i : nat) (cs : list MuObj) (st : Mu * list string) {struct cs} :=
    match cs with
    | [] => Ok st
    | child :: cs' =>
        let* st' := visit_child st.1 i child st.2 in
        loop (S i) cs' st'
    end.

(** The recursive call [create_object_paths(mu, obj, parents)], for the
    node [node] whose identity is [r].  [parents] is one list, appended to
    and popped in place: it is threaded through with [mu]. *)
Fixpoint create_object_paths_rec (mu : Mu) (r : ref) (node : MuObj)
    (parents : list string) {struct node} : result (Mu * list string) :=
  match node with
  | MuObject name cs =>
      let parents := parents ++ [name] in
      let path := String.concat "/" parents in
      let mu := MkMu (obj mu) (objects mu) (object_paths mu)
                     (<[r := path]> (node_path mu)) in
      let mu := MkMu (obj mu) (PyDict.set name r (objects mu))
                     (object_paths mu) (node_path mu) in
      let mu := MkMu (obj mu) (objects mu)
                     (PyDict.set path r (object_paths mu)) (node_path mu) in
      let* (mu, parents) :=
        for_children
          (fun mu i child parents =>
             create_object_paths_rec mu (r ++ [i]) child parents)
          0%nat cs (mu, parents) in
      let* parents := list_pop parents in
      Ok (mu, parents)
  end.

(** [create_object_paths(mu)] *)
Definition create_object_paths (mu : Mu) : result Mu :=
  let mu := MkMu (obj mu) [] [] (node_path mu) in
  let* (mu, _) := create_object_paths_rec mu [] (obj mu) [] in
  Ok mu.

(** *** The tree, independently of the traversal *)

(** The node a reference leads to. *)
Fixpoint node_at (node : MuObj) (r : ref) : option MuObj :=
  match r with
  | [] => Some node
  | i :: r' =>
      match children node !! i with
      | Some child => node_at child r'
      | None => None
      end
  end.

(** The names of the proper ancestors of the node at [r], from the root. *)
Fixpoint ancestor_names (node : MuObj) (r : ref) : option (list string) :=
  match r with
  | [] => Some []
  | i :: r' =>
      match children node !! i with
      | Some child => (transform_name node ::.) <$> ancestor_names child r'
      | None => None
      end
  end.

(** One visit of the pre-order traversal: the node's reference, the names
    of its proper ancestors from the root, and its own name. *)
Definition visit : Type := ref * list string * string.

Definition visit_ref (v : visit) : ref := v.1.1.
Definition visit_name (v : visit) : string := v.2.
Definition visit_path (v : visit) : string :=
  String.concat "/" (v.1.2 ++ [v.2]).

(** A visit inside the [i]-th child of a node called [name]. *)
Definition under (i : nat) (name : string) (v : visit) : visit :=
  (i :: v.1.1, name :: v.1.2, v.2).

(** The visits of the subtrees of the children from index [i] on, in
    decoded order; [visits] lists the visits of one child. *)
Definition subtrees (visits : nat -> MuObj -> list visit)
  : nat -> list MuObj -> list visit :=
  fix go (i : nat) (cs : list MuObj) {struct cs} :=
    match cs with
    | [] => []
    | child :: cs' => visits i child ++ go (S i) cs'
    end.

(** The pre-order traversal: a node first, then its children's subtrees in
    decoded order. *)
Fixpoint preorder_visits (node : MuObj) : list visit :=
  match node with
  | MuObject name cs =>
      ([], [], name)
      :: subtrees (fun i child => under i name <$> preorder_visits child)
           0%nat cs
  end.

(** What the visit [v] of a traversal stores, when the traversal started
    at the node [r] under the ancestors [parents]. *)
Definition record_visit (r : ref) (parents : list string) (mu : Mu)
    (v : visit) : Mu :=
  let node := r ++ v.1.1 in
  let path := String.concat "/" (parents ++ v.1.2 ++ [v.2]) in
  MkMu (obj mu) (PyDict.set v.2 node (objects mu))
       (PyDict.set path node (object_paths mu))
       (<[node := path]> (node_path mu)).

(** A test that holds of every node of a tree. *)
Fixpoint forall_nodes (p : MuObj -> bool) (node : MuObj) : bool :=
  match node with
  | MuObject name cs => p node && forallb (forall_nodes p) cs
  end.

(** The path the indexer leaves in a node: the joined names of its
    ancestors and its own. *)
Definition joined_path (root : MuObj) (r : ref) : string :=
  String.concat "/"
    (default [] (ancestor_names root r)
       ++ [default EmptyString (transform_name <$> node_at root r)]).

Fixpoint has_slash (s : string) : bool :=
  match s with
  | EmptyString => false
  | String c s' => bool_decide (c = "/"%char) || has_slash s'
  end.

(** The empty string or a string that starts with the separator: what
    follows a name in a joined path. *)
Definition after_name (s : string) : Prop :=
  s = EmptyString \/ exists s', s = String "/" s'.

(** What follows the first name in a joined path. *)
Definition joined_rest (l : list string) : string :=
  match l with
  | [] => EmptyString
  | _ => "/" +:+ String.concat "/" l
  end.

(** No name in the tree contains the separator. *)
Definition slash_free (node : MuObj) : bool :=
  forall_nodes (fun n => negb (has_slash (transform_name n))) node.

(** No two children of one node have the same name. *)
Definition distinct_siblings (node : MuObj) : bool :=
  forall_nodes
    (fun n => bool_decide (NoDup (transform_name <$> children n))) node.

(** ** create_action (lines 205-216) and copy_friction (lines 75-80) *)

Section Values.

(** The type of the decoded floating-point numbers; they are only
    copied. *)
Variable float : Type.

(** A key of a curve: time, value, in- and out-tangent. *)
Record MuKey : Type := MkKey {
  time : float;
  value : float;
  tangent : float * float
}.

Record MuCurve : Type := MkCurve {
  path : string;
  property : string;
  keys : list MuKey
}.

Record MuClip : Type := MkClip {
  name : string;
  curves : list MuCurve
}.

(** Lines 209-212: the key a curve is looked up with, for a clip of the
    node whose path is [node_path]. *)
Definition curve_mu_path (node_path : string) (curve : MuCurve) : string :=
  if bool_decide (path curve = EmptyString)      (* not curve.path *)
  then node_path
  else String.concat "/" [node_path; path curve].

(** What the head of the loop body does with one curve: either the path
    is not in the table and the curve is skipped, or the node it is
    stored under becomes the target. *)
Inductive curve_target : Type :=
  | UnknownPath (mu_path : string)
  | Target (mu_path : string) (node : ref).

Definition lookup_key (t : curve_target) : string :=
  match t with
  | UnknownPath mu_path => mu_path
  | Target mu_path _ => mu_path
  end.

Definition curve_lookup (mu : Mu) (node_path : string) (curve : MuCurve)
  : curve_target :=
  let mu_path := curve_mu_path node_path curve in
  match PyDict.get mu_path (object_paths mu) with
  | None => UnknownPath mu_path
  | Some node => Target mu_path node
  end.

(** The lookups of [create_action(mu, path, clip)], one per curve. *)
Definition create_action (mu : Mu) (node_path : string) (clip : MuClip)
  : list curve_target :=
  curve_lookup mu node_path <$> curves clip.

(** Lines 327-329 of [create_object]: the clips of the node [muobj] are
    bound with [muobj.path]. *)
Definition create_object_actions (mu : Mu) (muobj : ref)
    (clips : list MuClip) : result (list (list curve_target)) :=
  let* node_path := of_option AttributeError (node_path mu !! muobj) in
  Ok (create_action mu node_path <$> clips).

(** An object with float attributes: a friction curve of the decoded
    collider, or the property group it is copied to. *)
Definition getattr (o : gmap string float) (a : string) : result float :=
  of_option AttributeError (o !! a).

Definition setattr (o : gmap string float) (a : string) (v : float)
  : gmap string float :=
  <[a := v]> o.

Definition copy_friction (dst src : gmap string float)
  : result (gmap string float) :=
  let* v := getattr src "extremumSlip" in
  let dst := setattr dst "extremumSlip" v in
  let* v := getattr src "extremumValue" in
  let dst := setattr dst "extremumValue" v in
  let* v := getattr src "asymptoteSlip" in
  let dst := setattr dst "asymptoteSlip" v in
  let* v := getattr src "extremumValue" in
  let dst := setattr dst "extremumValue" v in
  let* v := getattr src "stiffness" in
  let dst := setattr dst "stiffness" v in
  Ok dst.

(** The two friction curves of a decoded wheel collider, and the two
    property groups of the collider object. *)
Record MuColliderWheel : Type := MkWheel {
  forwardFriction : gmap string float;
  sidewaysFriction : gmap string float
}.

Record MuProperties : Type := MkProps {
  props_forwardFriction : gmap string float;
  props_sideFriction : gmap string float
}.

(** Lines 281-282 of [create_collider], the wheel branch. *)
Definition create_collider_wheel (muproperties : MuProperties)
    (col : MuColliderWheel) : result MuProperties :=
  let* fwd := copy_friction (props_forwardFriction muproperties)
                            (forwardFriction col) in
  let* side := copy_friction (props_sideFriction muproperties)
                             (sidewaysFriction col) in
  Ok (MkProps fwd side).

(** The attributes [copy_friction] assigns. *)
Definition friction_written : list string :=
  ["extremumSlip"; "extremumValue"; "asymptoteSlip"; "stiffness"].

End Values.

Arguments path {float} _.
Arguments property {float} _.
Arguments keys {float} _.
Arguments name {float} _.
Arguments curves {float} _.
Arguments curve_mu_path {float} _ _.
Arguments curve_lookup {float} _ _ _.
Arguments create_action {float} _ _ _.
Arguments create_object_actions {float} _ _ _.
Arguments getattr {float} _ _.
Arguments setattr {float} _ _ _.
Arguments copy_friction {float} _ _.
Arguments forwardFriction {float} _.
Arguments sidewaysFriction {float} _.
Arguments props_forwardFriction {float} _.
Arguments props_sideFriction {float} _.
Arguments create_collider_wheel {float} _ _.

(** ** load_image (lines 370-378): the rows of a .dds image *)

(** One iteration of the loop: the rows [y] and [height - 1 - y] change
    places, through the temporary [t]. *)
Definition flip_step {A} (rowlen height : Z) (pixels : list A) (y : Z)
  : list A :=
  let ind1 := y * rowlen in
  let ind2 := (height - 1 - y) * rowlen in
  let t := Py.slice pixels ind1 (ind1 + rowlen) in
  let pixels :=
    Py.slice_assign pixels ind1 (ind1 + rowlen)
      (Py.slice pixels ind2 (ind2 + rowlen)) in
  Py.slice_assign pixels ind2 (ind2 + rowlen) t.

(** The loop over [range(int(height/2))], for an image of [width] by
    [height] pixels: [int] truncates the quotient, as [Z.quot] does (the
    quotient is a float in Python, exact for every height an image can
    have). *)
Definition flip_rows {A} (pixels : list A) (width height : Z) : list A :=
  let rowlen := width * 4 in
  foldl (flip_step rowlen height) pixels (Py.range 0 (Z.quot height 2)).

(** The element at offset [c] of row [y], for rows of [rowlen] elements. *)
Definition row_elem (rowlen y c : Z) : nat := Z.to_nat (y * rowlen + c).

(** ** property_index (lines 151-155) *)

Section PropertyIndex.

(** The items of a property collection, and their [name] attribute. *)
Variable item : Type.
Variable item_name : item -> string.

(** The loop over [enumerate(properties)], from the index [i] on. *)
Fixpoint property_index_from (i : nat) (properties : list item)
    (prop : string) : option nat :=
  match properties with
  | [] => None
  | p :: properties' =>
      if bool_decide (item_name p = prop) then Some i
      else property_index_from (S i) properties' prop
  end.

Definition property_index (properties : list item) (prop : string)
  : option nat :=
  property_index_from 0 properties prop.

End PropertyIndex.

Arguments property_index_from {item} _ _ _ _.
Arguments property_index {item} _ _ _.

(** ** copy_spring (lines 70-73) *)

Definition copy_spring {float : Type} (dst src : gmap string float)
  : result (gmap string float) :=
  let* v := getattr src "spring" in
  let dst := setattr dst "spring" v in
  let* v := getattr src "damper" in
  let dst := setattr dst "damper" v in
  let* v := getattr src "targetPosition" in
  let dst := setattr dst "targetPosition" v in
  Ok dst.

(** ** create_textures (lines 390-397): the order of the candidates *)



(** * Properties *)

(** ** Loops *)

Lemma for_each_app {A S} (body : S -> A -> result S) (s : S) (l1 l2 : list A) :
  for_each body s (l1 ++ l2)
  = rbind (for_each body s l1) (fun s' => for_each body s' l2).
Proof.
  revert s. induction l1 as [|a l1 IH]; intros s; simpl; [done|].
  destruct (body s a) as [s'|e]; simpl; [apply IH | done].
Qed.

Lemma for_each_fmap {A B S} (g : A -> B) (body : S -> B -> result S)
    (s : S) (l : list A) :
  for_each body s (g <$> l) = for_each (fun s a => body s (g a)) s l.
Proof.
  revert s. induction l as [|a l IH]; intros s; simpl; [done|].
  destruct (body s (g a)); simpl; [apply IH | done].
Qed.

Lemma for_each_nested {A B S} (g : A -> list B) (body : S -> B -> result S)
    (s : S) (l : list A) :
  for_each (fun s a => for_each body s (g a)) s l
  = for_each body s (l ≫= g).
Proof.
  revert s. induction l as [|a l IH]; intros s; simpl; [done|].
  rewrite for_each_app.
  destruct (for_each body s (g a)); simpl; [apply IH | done].
Qed.

Lemma elem_of_range (a b i : Z) : i ∈ Py.range a b <-> a <= i < b.
Proof. unfold Py.range. rewrite elem_of_seqZ. lia. Qed.

(** ** Slices that lie inside the list *)

Lemma slice_inside {A} (l : list A) (i n : Z) :
  0 <= i -> 0 <= n -> i + n <= Z.of_nat (length l) ->
  Py.slice l i (i + n) = take (Z.to_nat n) (drop (Z.to_nat i) l).
Proof.
  intros Hi Hn Hlen. unfold Py.slice, Py.clamp.
  replace (i <? 0) with false by lia.
  replace (i + n <? 0) with false by lia.
  do 2 f_equal; lia.
Qed.

Lemma slice_assign_inside {A} (l v : list A) (i n : Z) :
  0 <= i -> 0 <= n -> i + n <= Z.of_nat (length l) ->
  Py.slice_assign l i (i + n) v
  = take (Z.to_nat i) l ++ v ++ drop (Z.to_nat i + Z.to_nat n) l.
Proof.
  intros Hi Hn Hlen. unfold Py.slice_assign, Py.clamp.
  replace (i <? 0) with false by lia.
  replace (i + n <? 0) with false by lia.
  do 3 f_equal; lia.
Qed.

(** Four consecutive elements, as a slice of length four. *)
Lemma take4_drop {A} (l : list A) (k : nat) :
  (k + 4 <= length l)%nat ->
  exists a b c d,
    l !! k = Some a /\ l !! (k + 1)%nat = Some b /\
    l !! (k + 2)%nat = Some c /\ l !! (k + 3)%nat = Some d /\
    take 4 (drop k l) = [a; b; c; d].
Proof.
  intros Hk.
  destruct (lookup_lt_is_Some_2 l k) as [a Ha]; [lia|].
  destruct (lookup_lt_is_Some_2 l (k + 1)) as [b Hb]; [lia|].
  destruct (lookup_lt_is_Some_2 l (k + 2)) as [c Hc]; [lia|].
  destruct (lookup_lt_is_Some_2 l (k + 3)) as [d Hd]; [lia|].
  exists a, b, c, d. repeat split; try done.
  apply list_eq. intros j.
  destruct (decide (j < 4)%nat) as [Hj|Hj].
  - rewrite lookup_take_lt, lookup_drop by done.
    destruct j as [|[|[|[|j]]]]; simpl; try lia.
    + by rewrite Nat.add_0_r.
    + done.
    + done.
    + done.
  - rewrite lookup_take_ge by lia.
    symmetry. apply lookup_ge_None. simpl. lia.
Qed.

(** ** convert_bump *)

(** Overwriting the [n] elements from [i] on. *)
Lemma lookup_write {A} (l v : list A) (i n k : nat) :
  length v = n -> (i + n <= length l)%nat ->
  (take i l ++ v ++ drop (i + n) l) !! k
  = if decide (i <= k < i + n)%nat then v !! (k - i)%nat else l !! k.
Proof.
  intros Hv Hi.
  destruct (decide (k < i)%nat) as [Hlt|Hge].
  - rewrite lookup_app_l by (rewrite length_take; lia).
    rewrite lookup_take_lt by done.
    case_decide; [lia | done].
  - rewrite lookup_app_r by (rewrite length_take; lia).
    rewrite length_take_le by lia.
    destruct (decide (k < i + n)%nat) as [Hin|Hout].
    + rewrite lookup_app_l by lia. case_decide; [done | lia].
    + rewrite lookup_app_r by lia. rewrite lookup_drop, Hv.
      case_decide; [lia|]. f_equal. lia.
Qed.

Lemma length_write {A} (l v : list A) (i n : nat) :
  length v = n -> (i + n <= length l)%nat ->
  length (take i l ++ v ++ drop (i + n) l) = length l.
Proof.
  intros Hv Hi. rewrite !length_app, length_take, length_drop. lia.
Qed.

(** One iteration on a pixel that lies inside both lists. *)
Lemma bump_pixel_inside (pixels outp : list Z) (width y x : Z) :
  let q := y * width + x in
  0 <= q -> q * 4 + 4 <= Z.of_nat (length pixels) ->
  length outp = length pixels ->
  exists a b,
    pixels !! channel q 3 = Some a /\ pixels !! channel q 2 = Some b /\
    bump_pixel pixels width outp y x
    = Ok (take (channel q 0) outp ++ [a; b; 255; 255]
            ++ drop (channel q 0 + 4) outp).
Proof.
  intros q Hq Hlen Hout. unfold bump_pixel. fold q.
  rewrite (slice_inside pixels (q * 4) 4) by lia.
  change (Z.to_nat 4) with 4%nat.
  destruct (take4_drop pixels (Z.to_nat (q * 4)))
    as (r & g & b & a & _ & _ & Hb & Ha & ->); [lia|].
  exists a, b. unfold channel.
  replace (Z.to_nat (q * 4 + 3)) with (Z.to_nat (q * 4) + 3)%nat by lia.
  replace (Z.to_nat (q * 4 + 2)) with (Z.to_nat (q * 4) + 2)%nat by lia.
  split; [done|]. split; [done|].
  simpl. rewrite slice_assign_inside by lia.
  change (Z.to_nat 4) with 4%nat.
  by replace (q * 4 + 0) with (q * 4) by lia.
Qed.

(** The loop over any list of pixels that lie inside the buffer: the
    pixels of the list are rewritten from [pixels], the others keep what
    [outp] had. *)
Lemma bump_loop (pixels : list Z) (width : Z) (ps : list (Z * Z)) :
  forall outp : list Z,
    length outp = length pixels ->
    (forall p, p ∈ ps ->
       0 <= p.1 * width + p.2 /\
       (p.1 * width + p.2) * 4 + 4 <= Z.of_nat (length pixels)) ->
    exists out,
      for_each (fun outp p => bump_pixel pixels width outp p.1 p.2) outp ps
      = Ok out /\
      length out = length pixels /\
      forall q c, 0 <= q -> 0 <= c < 4 ->
        (q ∈ (fun p => p.1 * width + p.2) <$> ps ->
           out !! channel q c = bump_channel pixels q c) /\
        (q ∉ (fun p => p.1 * width + p.2) <$> ps ->
           out !! channel q c = outp !! channel q c).
Proof.
  induction ps as [|[y x] ps IH]; intros outp Hlen Hin.
  - exists outp. split; [done|]. split; [done|].
    intros q c Hq Hc. split; [|done].
    intros Hel. by apply elem_of_nil in Hel.
  - destruct (Hin (y, x)) as [Hq0 Hq1]; [left|]. simpl in Hq0, Hq1.
    destruct (bump_pixel_inside pixels outp width y x Hq0 Hq1 Hlen)
      as (a & b & Ha & Hb & Hstep).
    set (q0 := y * width + x) in *.
    set (out1 := take (channel q0 0) outp ++ [a; b; 255; 255]
                   ++ drop (channel q0 0 + 4) outp) in *.
    assert (Hk0 : (channel q0 0 + 4 <= length outp)%nat)
      by (unfold channel; lia).
    assert (Hlen1 : length out1 = length pixels).
    { unfold out1. rewrite (length_write _ _ _ 4); [done | done | done]. }
    destruct (IH out1 Hlen1) as (out & Hrun & Hlen' & Hout).
    { intros p Hel. apply Hin. by right. }
    exists out. split; [|split; [done|]].
    { simpl. rewrite Hstep. simpl. exact Hrun. }
    intros q c Hq Hc.
    destruct (Hout q c Hq Hc) as [Hnew Hold].
    assert (Hq0c : q = q0 -> out1 !! channel q c = bump_channel pixels q c).
    { intros ->. unfold out1. rewrite (lookup_write _ _ _ 4) by done.
      unfold channel in *. case_decide; [|lia].
      unfold bump_channel, channel.
      assert (c = 0 \/ c = 1 \/ c = 2 \/ c = 3) as [-> | [-> | [-> | ->]]] by lia.
      - replace (Z.to_nat (q0 * 4 + 0) - Z.to_nat (q0 * 4 + 0))%nat
          with 0%nat by lia. done.
      - replace (Z.to_nat (q0 * 4 + 1) - Z.to_nat (q0 * 4 + 0))%nat
          with 1%nat by lia. done.
      - replace (Z.to_nat (q0 * 4 + 2) - Z.to_nat (q0 * 4 + 0))%nat
          with 2%nat by lia. done.
      - replace (Z.to_nat (q0 * 4 + 3) - Z.to_nat (q0 * 4 + 0))%nat
          with 3%nat by lia. done. }
    assert (Hq0n : q <> q0 -> out1 !! channel q c = outp !! channel q c).
    { intros Hne. unfold out1. rewrite (lookup_write _ _ _ 4) by done.
      unfold channel in *. case_decide; [lia | done]. }
    rewrite fmap_cons. simpl. fold q0.
    split.
    + intros Hel.
      destruct (decide (q ∈ (fun p => p.1 * width + p.2) <$> ps))
        as [Hex|Hnex].
      * by apply Hnew.
      * rewrite Hold by done.
        apply Hq0c. apply elem_of_cons in Hel as [-> | Hel]; done.
    + intros Hnot. apply not_elem_of_cons in Hnot as [Hne Hnot].
      rewrite Hold by done. by apply Hq0n.
Qed.

Lemma for_each_ext {A S} (f g : S -> A -> result S) (s : S) (l : list A) :
  (forall s a, f s a = g s a) -> for_each f s l = for_each g s l.
Proof.
  intros Hfg. revert s. induction l as [|a l IH]; intros s; simpl; [done|].
  rewrite Hfg. destruct (g s a); simpl; [apply IH | done].
Qed.

(** The pixels the two loops go through, as (row, column) pairs. *)
Lemma convert_bump_pairs (pixels : list Z) (width height : Z) :
  convert_bump pixels width height
  = for_each (fun outp p => bump_pixel pixels width outp p.1 p.2) pixels
      (Py.range 1 (height - 1) ≫= fun y => (y,.) <$> Py.range 1 (width - 1)).
Proof.
  unfold convert_bump. rewrite <- for_each_nested.
  apply for_each_ext. intros outp y. by rewrite for_each_fmap.
Qed.

Lemma elem_of_bump_pairs (width height y x : Z) :
  (y, x) ∈ (Py.range 1 (height - 1) ≫= fun y => (y,.) <$> Py.range 1 (width - 1))
  <-> in_interior width height x y.
Proof.
  unfold in_interior. rewrite list_elem_of_bind. split.
  - intros (y' & Hel & Hy). apply list_elem_of_fmap in Hel as (x' & [= -> ->] & Hx).
    apply elem_of_range in Hx, Hy. done.
  - intros [Hx Hy]. exists y. split.
    + apply list_elem_of_fmap. exists x. split; [done|]. by apply elem_of_range.
    + by apply elem_of_range.
Qed.

(** A pixel number determines its row and column. *)
Lemma pixel_number_inj (width x y x' y' : Z) :
  0 <= x < width -> 0 <= x' < width ->
  y * width + x = y' * width + x' -> x = x' /\ y = y'.
Proof.
  intros Hx Hx' Heq.
  assert (y = y') as -> by nia. lia.
Qed.

(** The pixels of a [width] by [height] buffer lie inside it. *)
Lemma pixel_number_bound (width height x y : Z) :
  0 <= x < width -> 0 <= y < height ->
  0 <= y * width + x /\ (y * width + x) * 4 + 4 <= width * height * 4.
Proof. intros Hx Hy. nia. Qed.

(** The result of [convert_bump], channel by channel. *)
Lemma convert_bump_channels (pixels : list Z) (width height : Z) :
  0 <= width -> 0 <= height ->
  Z.of_nat (length pixels) = width * height * 4 ->
  exists outp,
    convert_bump pixels width height = Ok outp /\
    length outp = length pixels /\
    forall x y c, 0 <= x < width -> 0 <= y < height -> 0 <= c < 4 ->
      (in_interior width height x y ->
         outp !! channel (y * width + x) c
         = bump_channel pixels (y * width + x) c) /\
      (on_border width height x y ->
         outp !! channel (y * width + x) c
         = pixels !! channel (y * width + x) c).
Proof.
  intros Hw Hh Hlen. rewrite convert_bump_pairs.
  destruct (bump_loop pixels width
              (Py.range 1 (height - 1) ≫= fun y => (y,.) <$> Py.range 1 (width - 1))
              pixels eq_refl) as (outp & Hrun & Hlen' & Hout).
  { intros [y x] Hel. apply elem_of_bump_pairs in Hel as [Hx Hy]. simpl.
    rewrite Hlen. apply pixel_number_bound; lia. }
  exists outp. split; [done|]. split; [done|].
  intros x y c Hx Hy Hc.
  destruct (pixel_number_bound width height x y Hx Hy) as [Hq _].
  destruct (Hout (y * width + x) c Hq Hc) as [Hnew Hold].
  split.
  - intros Hint. apply Hnew. apply list_elem_of_fmap.
    exists (y, x). split; [done|]. by apply elem_of_bump_pairs.
  - intros Hb. apply Hold. intros Hel.
    apply list_elem_of_fmap in Hel as ([y' x'] & Heq & Hel). simpl in Heq.
    apply elem_of_bump_pairs in Hel as [Hx' Hy'].
    destruct (pixel_number_inj width x y x' y') as [-> ->]; [lia | lia | done |].
    unfold on_border in Hb. lia.
Qed.

(** The pixel with number [q], inside the buffer, as its four channels. *)
Lemma slice4_channels (buf : list Z) (q : Z) :
  0 <= q -> q * 4 + 4 <= Z.of_nat (length buf) ->
  exists r g b a,
    buf !! channel q 0 = Some r /\ buf !! channel q 1 = Some g /\
    buf !! channel q 2 = Some b /\ buf !! channel q 3 = Some a /\
    Py.slice buf (q * 4) (q * 4 + 4) = [r; g; b; a].
Proof.
  intros Hq Hlen.
  rewrite (slice_inside buf (q * 4) 4) by lia.
  change (Z.to_nat 4) with 4%nat.
  destruct (take4_drop buf (Z.to_nat (q * 4)))
    as (r & g & b & a & Hr & Hg & Hb & Ha & ->); [lia|].
  exists r, g, b, a. unfold channel.
  replace (Z.to_nat (q * 4 + 0)) with (Z.to_nat (q * 4)) by lia.
  replace (Z.to_nat (q * 4 + 1)) with (Z.to_nat (q * 4) + 1)%nat by lia.
  replace (Z.to_nat (q * 4 + 2)) with (Z.to_nat (q * 4) + 2)%nat by lia.
  replace (Z.to_nat (q * 4 + 3)) with (Z.to_nat (q * 4) + 3)%nat by lia.
  done.
Qed.

Lemma pixel_at_channels (buf : list Z) (width x y : Z) :
  0 <= y * width + x ->
  (y * width + x) * 4 + 4 <= Z.of_nat (length buf) ->
  exists r g b a,
    buf !! channel (y * width + x) 0 = Some r /\
    buf !! channel (y * width + x) 1 = Some g /\
    buf !! channel (y * width + x) 2 = Some b /\
    buf !! channel (y * width + x) 3 = Some a /\
    pixel_at buf width x y = [r; g; b; a].
Proof. intros Hq Hlen. by apply slice4_channels. Qed.

(** C1. For every RGBA pixel buffer of the given width and height,
    [convert_bump] returns a buffer of the same length in which every
    pixel of the outermost one-pixel border is the pixel of the input and
    every interior pixel, whose channels in the input are (R, G, B, A), is
    (A, B, 255, 255): the third channel is the constant 255, not a value
    reconstructed with a square root. *)
Theorem convert_bump_remap (pixels : list Z) (width height : Z) :
  0 <= width -> 0 <= height ->
  Z.of_nat (length pixels) = width * height * 4 ->
  exists outp,
    convert_bump pixels width height = Ok outp /\
    length outp = length pixels /\
    forall x y, 0 <= x < width -> 0 <= y < height ->
      (on_border width height x y ->
         pixel_at outp width x y = pixel_at pixels width x y) /\
      (in_interior width height x y ->
         forall R G B A, pixel_at pixels width x y = [R; G; B; A] ->
           pixel_at outp width x y = [A; B; 255; 255]).
Proof.
  intros Hw Hh Hlen.
  destruct (convert_bump_channels pixels width height Hw Hh Hlen)
    as (outp & Hrun & Hlen' & Hout).
  exists outp. split; [done|]. split; [done|].
  intros x y Hx Hy.
  destruct (pixel_number_bound width height x y Hx Hy) as [Hq Hq'].
  destruct (pixel_at_channels pixels width x y) as
    (r & g & b & a & Hr & Hg & Hb & Ha & Hpix); [lia | lia |].
  destruct (pixel_at_channels outp width x y) as
    (r' & g' & b' & a' & Hr' & Hg' & Hb' & Ha' & Hpix'); [lia | lia |].
  rewrite Hpix, Hpix'.
  split.
  - intros Hbd.
    destruct (Hout x y 0 Hx Hy) as [_ H0]; [lia|].
    destruct (Hout x y 1 Hx Hy) as [_ H1]; [lia|].
    destruct (Hout x y 2 Hx Hy) as [_ H2]; [lia|].
    destruct (Hout x y 3 Hx Hy) as [_ H3]; [lia|].
    specialize (H0 Hbd). specialize (H1 Hbd).
    specialize (H2 Hbd). specialize (H3 Hbd).
    congruence.
  - intros Hint R G B A [= -> -> -> ->].
    destruct (Hout x y 0 Hx Hy) as [H0 _]; [lia|].
    destruct (Hout x y 1 Hx Hy) as [H1 _]; [lia|].
    destruct (Hout x y 2 Hx Hy) as [H2 _]; [lia|].
    destruct (Hout x y 3 Hx Hy) as [H3 _]; [lia|].
    specialize (H0 Hint). specialize (H1 Hint).
    specialize (H2 Hint). specialize (H3 Hint).
    unfold bump_channel in *. simpl in *.
    congruence.
Qed.

Lemma convert_bump_remap_witness :
  (0 <= 3 /\ 0 <= 3 /\ Z.of_nat (length (seqZ 0 36)) = 3 * 3 * 4) /\
  exists outp,
    convert_bump (seqZ 0 36) 3 3 = Ok outp /\
    length outp = length (seqZ 0 36) /\
    forall x y, 0 <= x < 3 -> 0 <= y < 3 ->
      (on_border 3 3 x y ->
         pixel_at outp 3 x y = pixel_at (seqZ 0 36) 3 x y) /\
      (in_interior 3 3 x y ->
         forall R G B A, pixel_at (seqZ 0 36) 3 x y = [R; G; B; A] ->
           pixel_at outp 3 x y = [A; B; 255; 255]).
Proof.
  split; [split; [lia | split; [lia | reflexivity]] |].
  apply (convert_bump_remap (seqZ 0 36) 3 3); [lia | lia | reflexivity].
Defined.

(** ** load_mbm *)

(** From the header on, [load_mbm] is a function of the header fields and
    of the payload. *)
Lemma load_mbm_header (f : file) (magic width height bump bpp : Z) :
  header_fields f = Some (magic, width, height, bump, bpp) ->
  load_mbm f
  = if negb (magic =? mbm_magic) then Raise BadMagic
    else
      rbind (load_mbm_pixels (payload f) width height bpp) (fun pixels =>
      rbind (if negb (bump =? 0) then convert_bump pixels width height
             else Ok pixels) (fun pixels =>
      Ok (width, height, pixels))).
Proof.
  unfold header_fields, load_mbm, payload, read.
  change (20 <? -1) with false. change (20 =? -1) with false.
  change (Z.to_nat 20) with 20%nat. cbn [rbind].
  destruct (unpack_5i (take 20 f)) as [[[[[m w] h] b] p]|e]; [|done].
  intros [= -> -> -> -> ->]. done.
Qed.

Lemma repeat_length {A} (l : list A) (n : Z) :
  length (Py.repeat l n) = (Z.to_nat n * length l)%nat.
Proof.
  unfold Py.repeat. induction (Z.to_nat n) as [|k IH]; simpl; [done|].
  rewrite length_app, IH. done.
Qed.

(** In [l * n], the element at offset [c] of the [q]-th copy. *)
Lemma repeat_lookup {A} (l : list A) (n : Z) (q c : nat) :
  (q < Z.to_nat n)%nat -> (c < length l)%nat ->
  Py.repeat l n !! (q * length l + c)%nat = l !! c.
Proof.
  unfold Py.repeat. revert q.
  induction (Z.to_nat n) as [|k IH]; intros q Hq Hc; [lia|].
  simpl. destruct q as [|q].
  - rewrite lookup_app_l by lia. done.
  - rewrite lookup_app_r by lia.
    replace (S q * length l + c - length l)%nat
      with (q * length l + c)%nat by lia.
    apply IH; lia.
Qed.

Lemma repeat_repeat {A} (l : list A) (n m : Z) :
  0 <= n -> 0 <= m ->
  Py.repeat (Py.repeat l n) m = Py.repeat l (n * m).
Proof.
  intros Hn Hm. unfold Py.repeat.
  replace (Z.to_nat (n * m)) with (Z.to_nat m * Z.to_nat n)%nat by lia.
  induction (Z.to_nat m) as [|k IH]; simpl; [done|].
  rewrite IH, replicate_add, join_app. done.
Qed.

(** One iteration of the 24-bit loop, with a whole triple left in the
    file and pixel [i] inside the buffer. *)
Lemma read_rgb_inside (mbmfile : file) (pixels : list Z) (i : Z) :
  0 <= i -> i * 4 + 4 <= Z.of_nat (length pixels) ->
  (3 <= length mbmfile)%nat ->
  read_rgb (mbmfile, pixels) i
  = Ok (drop 3 mbmfile,
        take (channel i 0) pixels ++ (byte_to_Z <$> take 3 mbmfile)
          ++ drop (channel i 0 + 3) pixels).
Proof.
  intros Hi Hlen Hfile. unfold read_rgb, read.
  change (3 <? -1) with false. change (3 =? -1) with false.
  change (Z.to_nat 3) with 3%nat. cbn [rbind].
  rewrite slice_assign_inside by lia.
  change (Z.to_nat 3) with 3%nat. unfold channel.
  by replace (i * 4 + 0) with (i * 4) by lia.
Qed.

(** The 24-bit loop over [k] pixels from pixel [i] on: the triples are
    taken from the file in order, the fourth channel is not written. *)
Lemma rgb_loop (k : nat) :
  forall (i : Z) (mbmfile : file) (pixels : list Z),
    0 <= i -> (i + Z.of_nat k) * 4 <= Z.of_nat (length pixels) ->
    (3 * k <= length mbmfile)%nat ->
    exists out,
      for_each read_rgb (mbmfile, pixels) (seqZ i (Z.of_nat k))
      = Ok (drop (3 * k) mbmfile, out) /\
      length out = length pixels /\
      forall q c, 0 <= q -> 0 <= c < 4 ->
        (i <= q < i + Z.of_nat k -> c < 3 ->
           out !! channel q c
           = byte_to_Z <$> mbmfile !! Z.to_nat ((q - i) * 3 + c)) /\
        (~ (i <= q < i + Z.of_nat k /\ c < 3) ->
           out !! channel q c = pixels !! channel q c).
Proof.
  induction k as [|k IH]; intros i mbmfile pixels Hi Hlen Hfile.
  - exists pixels. rewrite seqZ_nil by lia. simpl. rewrite drop_0.
    split; [done|]. split; [done|].
    intros q c Hq Hc. split; [lia | done].
  - rewrite seqZ_cons by lia. cbn [for_each].
    rewrite read_rgb_inside by lia. cbn [rbind].
    set (out1 := take (channel i 0) pixels ++ (byte_to_Z <$> take 3 mbmfile)
                   ++ drop (channel i 0 + 3) pixels).
    assert (Hv : length (byte_to_Z <$> take 3 mbmfile) = 3%nat).
    { rewrite length_fmap, length_take. lia. }
    assert (Hk0 : (channel i 0 + 3 <= length pixels)%nat)
      by (unfold channel; lia).
    assert (Hlen1 : length out1 = length pixels).
    { unfold out1. by rewrite (length_write _ _ _ 3). }
    replace (Z.pred (Z.of_nat (S k))) with (Z.of_nat k) by lia.
    destruct (IH (Z.succ i) (drop 3 mbmfile) out1) as (out & Hrun & Hlen' & Hout).
    { lia. }
    { rewrite Hlen1. lia. }
    { rewrite length_drop. lia. }
    exists out. split; [|split; [congruence|]].
    { etrans; [exact Hrun|]. rewrite drop_drop.
      by replace (3 * S k)%nat with (3 + 3 * k)%nat by lia. }
    intros q c Hq Hc.
    destruct (Hout q c Hq Hc) as [Hnew Hold].
    assert (Hstep : out1 !! channel q c
                    = if decide (q = i /\ c < 3)
                      then byte_to_Z <$> mbmfile !! Z.to_nat c
                      else pixels !! channel q c).
    { unfold out1. rewrite (lookup_write _ _ _ 3) by done.
      unfold channel in *.
      case_decide as Hin; case_decide as Heq; try lia; [|done].
      destruct Heq as [-> Hc3].
      replace (Z.to_nat (i * 4 + c) - Z.to_nat (i * 4 + 0))%nat
        with (Z.to_nat c) by lia.
      rewrite list_lookup_fmap, lookup_take_lt by lia. done. }
    split.
    + intros Hin Hc3.
      destruct (decide (q = i)) as [->|Hne].
      * rewrite Hold by lia. rewrite Hstep.
        case_decide; [|lia]. do 2 f_equal. lia.
      * rewrite Hnew by lia. rewrite lookup_drop.
        do 2 f_equal. lia.
    + intros Hnot. rewrite Hold by lia. rewrite Hstep.
      case_decide; [lia | done].
Qed.

(** The 24-bit branch on a payload that holds every triple. *)
Lemma load_mbm_pixels_24 (mbmfile : file) (width height : Z) :
  0 <= width -> 0 <= height ->
  width * height * 3 <= Z.of_nat (length mbmfile) ->
  exists pixels,
    for_each read_rgb
      (mbmfile, Py.repeat (Py.repeat [0; 0; 0; 255] width) height)
      (Py.range 0 (width * height))
    = Ok (drop (Z.to_nat (width * height * 3)) mbmfile, pixels) /\
    load_mbm_pixels mbmfile width height 24 = Ok pixels /\
    Z.of_nat (length pixels) = width * height * 4 /\
    forall q c, 0 <= q < width * height -> 0 <= c < 4 ->
      pixels !! channel q c
      = if decide (c < 3) then byte_to_Z <$> mbmfile !! Z.to_nat (q * 3 + c)
        else Some 255.
Proof.
  intros Hw Hh Hlen.
  set (init := Py.repeat [0; 0; 0; 255] (width * height)).
  assert (Hinit : length init = (Z.to_nat (width * height) * 4)%nat)
    by apply repeat_length.
  destruct (rgb_loop (Z.to_nat (width * height)) 0 mbmfile init)
    as (out & Hrun & Hlen' & Hout); [lia | lia | lia |].
  assert (Hloop : for_each read_rgb
                    (mbmfile, Py.repeat (Py.repeat [0; 0; 0; 255] width) height)
                    (Py.range 0 (width * height))
                  = Ok (drop (Z.to_nat (width * height * 3)) mbmfile, out)).
  { rewrite repeat_repeat by done. fold init.
    unfold Py.range. rewrite Z.sub_0_r.
    replace (seqZ 0 (width * height))
      with (seqZ 0 (Z.of_nat (Z.to_nat (width * height)))) by (f_equal; lia).
    etrans; [exact Hrun|]. do 3 f_equal. lia. }
  exists out. split; [exact Hloop|]. split; [|split; [lia|]].
  - unfold load_mbm_pixels.
    change (24 =? 32) with false. change (24 =? 24) with true. cbv iota.
    by rewrite Hloop.
  - intros q c Hq Hc. destruct (Hout q c) as [Hnew Hold]; [lia | lia |].
    case_decide as Hc3.
    + rewrite Hnew by lia. do 3 f_equal. lia.
    + rewrite Hold by lia.
      assert (c = 3) as -> by lia. unfold channel.
      replace (Z.to_nat (q * 4 + 3))
        with (Z.to_nat q * length [0; 0; 0; 255] + 3)%nat by (simpl; lia).
      unfold init.
      apply (repeat_lookup [0; 0; 0; 255] (width * height) (Z.to_nat q) 3);
        [lia | simpl; lia].
Qed.

(** The 32-bit branch on a payload that holds every pixel. *)
Lemma load_mbm_pixels_32 (mbmfile : file) (width height : Z) :
  0 <= width -> 0 <= height ->
  width * height * 4 <= Z.of_nat (length mbmfile) ->
  exists pixels,
    load_mbm_pixels mbmfile width height 32 = Ok pixels /\
    Z.of_nat (length pixels) = width * height * 4.
Proof.
  intros Hw Hh Hlen. unfold load_mbm_pixels, read.
  change (32 =? 32) with true. cbv iota.
  replace (width * height * 4 <? -1) with false by lia.
  replace (width * height * 4 =? -1) with false by lia.
  cbn [rbind]. eexists. split; [done|].
  rewrite length_fmap, length_take. lia.
Qed.

(** C5. A file whose 20-byte header has a magic field other than
    0x50534B03 makes [load_mbm] raise at the magic test: the result is the
    exception, no width, height or pixel is returned. *)
Theorem load_mbm_bad_magic (f : file) (magic width height bump bpp : Z) :
  header_fields f = Some (magic, width, height, bump, bpp) ->
  magic <> 0x50534B03 ->
  load_mbm f = Raise BadMagic.
Proof.
  intros Hhdr Hmagic. rewrite (load_mbm_header _ _ _ _ _ _ Hhdr).
  unfold mbm_magic. destruct (Z.eqb_spec magic 0x50534b03); [done | done].
Qed.

Lemma load_mbm_bad_magic_witness :
  (header_fields (mbm_file 0x50534B04 2 2 0 24 []) = Some (0x50534B04, 2, 2, 0, 24)
   /\ 0x50534B04 <> 0x50534B03) /\
  load_mbm (mbm_file 0x50534B04 2 2 0 24 []) = Raise BadMagic.
Proof.
  split; [split; [reflexivity | lia] |].
  apply (load_mbm_bad_magic _ 0x50534B04 2 2 0 24); [reflexivity | lia].
Defined.

(** C6. With the right magic and a bitsPerPixel field that is neither 24
    nor 32, [load_mbm] raises in the last branch of the bit-depth test. *)
Theorem load_mbm_unsupported_depth (f : file) (width height bump bpp : Z) :
  header_fields f = Some (0x50534B03, width, height, bump, bpp) ->
  bpp <> 24 -> bpp <> 32 ->
  load_mbm f = Raise UnsupportedPixelFormat.
Proof.
  intros Hhdr H24 H32. rewrite (load_mbm_header _ _ _ _ _ _ Hhdr).
  change (negb (0x50534B03 =? mbm_magic)) with false. cbv iota.
  unfold load_mbm_pixels.
  destruct (Z.eqb_spec bpp 32); [done|].
  destruct (Z.eqb_spec bpp 24); [done|]. done.
Qed.

Lemma load_mbm_unsupported_depth_witness :
  (header_fields (mbm_file 0x50534B03 2 2 1 16 [Byte.x01; Byte.x02])
   = Some (0x50534B03, 2, 2, 1, 16) /\ 16 <> 24 /\ 16 <> 32) /\
  load_mbm (mbm_file 0x50534B03 2 2 1 16 [Byte.x01; Byte.x02])
  = Raise UnsupportedPixelFormat.
Proof.
  split; [split; [reflexivity | split; lia] |].
  apply (load_mbm_unsupported_depth _ 2 2 1 16); [reflexivity | lia | lia].
Defined.

(** After the pixel branches: the bump test and the return. *)
Lemma load_mbm_return (f : file) (width height bump bpp : Z)
    (pixels : list Z) :
  header_fields f = Some (0x50534B03, width, height, bump, bpp) ->
  load_mbm_pixels (payload f) width height bpp = Ok pixels ->
  0 <= width -> 0 <= height ->
  Z.of_nat (length pixels) = width * height * 4 ->
  (bump = 0 -> load_mbm f = Ok (width, height, pixels)) /\
  (bump <> 0 ->
     exists outp, convert_bump pixels width height = Ok outp /\
                  length outp = length pixels /\
                  load_mbm f = Ok (width, height, outp)).
Proof.
  intros Hhdr Hpix Hw Hh Hlen. rewrite (load_mbm_header _ _ _ _ _ _ Hhdr).
  change (negb (0x50534B03 =? mbm_magic)) with false. cbv iota.
  rewrite Hpix. cbn [rbind]. split.
  - intros ->. done.
  - intros Hbump. destruct (Z.eqb_spec bump 0) as [|_]; [done|]. cbn [negb].
    destruct (convert_bump_channels pixels width height Hw Hh Hlen)
      as (outp & Hrun & Hlen' & _).
    exists outp. rewrite Hrun. done.
Qed.

(** The [i]-th triple of a payload that holds it. *)
Lemma slice3_lookup (data : list byte) (i : Z) (j : nat) :
  0 <= i -> i * 3 + 3 <= Z.of_nat (length data) -> (j < 3)%nat ->
  Py.slice data (i * 3) (i * 3 + 3) !! j
  = data !! Z.to_nat (i * 3 + Z.of_nat j).
Proof.
  intros Hi Hlen Hj. rewrite slice_inside by lia.
  change (Z.to_nat 3) with 3%nat.
  rewrite lookup_take_lt, lookup_drop by done. f_equal. lia.
Qed.

Lemma slice3_length (data : list byte) (i : Z) :
  0 <= i -> i * 3 + 3 <= Z.of_nat (length data) ->
  length (Py.slice data (i * 3) (i * 3 + 3)) = 3%nat.
Proof.
  intros Hi Hlen. rewrite slice_inside by lia.
  rewrite length_take, length_drop. lia.
Qed.

(** C4, as the code has it: with the right magic, bitsPerPixel 24, a width
    and a height that are not negative and a payload of at least
    width*height*3 bytes, the loop reads width*height triples, that is the
    first width*height*3 bytes of the payload; the buffer built before the
    bump test has width*height pixels, pixel [i] being the [i]-th triple
    of the payload followed by 255; [load_mbm] returns it as it is when
    the bump flag is 0 and after [convert_bump] otherwise. *)
Theorem load_mbm_rgb (f : file) (width height bump : Z) :
  header_fields f = Some (0x50534B03, width, height, bump, 24) ->
  0 <= width -> 0 <= height ->
  width * height * 3 <= Z.of_nat (length (payload f)) ->
  exists pixels,
    for_each read_rgb
      (payload f, Py.repeat (Py.repeat [0; 0; 0; 255] width) height)
      (Py.range 0 (width * height))
    = Ok (drop (Z.to_nat (width * height * 3)) (payload f), pixels) /\
    load_mbm_pixels (payload f) width height 24 = Ok pixels /\
    Z.of_nat (length pixels) = width * height * 4 /\
    (forall i, 0 <= i < width * height ->
       Py.slice pixels (i * 4) (i * 4 + 4)
       = (byte_to_Z <$> Py.slice (payload f) (i * 3) (i * 3 + 3)) ++ [255]) /\
    (bump = 0 -> load_mbm f = Ok (width, height, pixels)) /\
    (bump <> 0 ->
       exists outp, convert_bump pixels width height = Ok outp /\
                    length outp = length pixels /\
                    load_mbm f = Ok (width, height, outp)).
Proof.
  intros Hhdr Hw Hh Hlen.
  destruct (load_mbm_pixels_24 (payload f) width height Hw Hh Hlen)
    as (pixels & Hloop & Hrun & Hlen' & Hout).
  exists pixels. split; [done|]. split; [done|]. split; [done|]. split.
  - intros i Hi.
    destruct (slice4_channels pixels i) as (r & g & b & a & Hr & Hg & Hb & Ha & ->);
      [lia | lia |].
    rewrite (Hout i 0) in Hr by lia. rewrite (Hout i 1) in Hg by lia.
    rewrite (Hout i 2) in Hb by lia. rewrite (Hout i 3) in Ha by lia.
    simpl in Hr, Hg, Hb, Ha.
    apply list_eq. intros j.
    assert (Hs : length (Py.slice (payload f) (i * 3) (i * 3 + 3)) = 3%nat)
      by (apply slice3_length; lia).
    destruct (decide (j < 3)%nat) as [Hj|Hj].
    + rewrite lookup_app_l by (rewrite length_fmap; lia).
      rewrite list_lookup_fmap, slice3_lookup by lia.
      destruct j as [|[|[|j]]]; [| | |lia].
      * change (Z.of_nat 0) with 0. by rewrite Hr.
      * change (Z.of_nat 1) with 1. by rewrite Hg.
      * change (Z.of_nat 2) with 2. by rewrite Hb.
    + rewrite lookup_app_r by (rewrite length_fmap; lia).
      rewrite length_fmap, Hs.
      destruct j as [|[|[|[|j]]]]; simpl; try lia; congruence.
  - by apply (load_mbm_return f width height bump 24 pixels).
Qed.

Lemma load_mbm_rgb_witness :
  let f := mbm_file 0x50534B03 2 1 0 24
             [Byte.x0a; Byte.x0b; Byte.x0c; Byte.x0d; Byte.x0e; Byte.x0f] in
  (header_fields f = Some (0x50534B03, 2, 1, 0, 24) /\
   0 <= 2 /\ 0 <= 1 /\ 2 * 1 * 3 <= Z.of_nat (length (payload f))) /\
  exists pixels,
    for_each read_rgb
      (payload f, Py.repeat (Py.repeat [0; 0; 0; 255] 2) 1)
      (Py.range 0 (2 * 1))
    = Ok (drop (Z.to_nat (2 * 1 * 3)) (payload f), pixels) /\
    load_mbm_pixels (payload f) 2 1 24 = Ok pixels /\
    Z.of_nat (length pixels) = 2 * 1 * 4 /\
    (forall i, 0 <= i < 2 * 1 ->
       Py.slice pixels (i * 4) (i * 4 + 4)
       = (byte_to_Z <$> Py.slice (payload f) (i * 3) (i * 3 + 3)) ++ [255]) /\
    (0 = 0 -> load_mbm f = Ok (2, 1, pixels)) /\
    (0 <> 0 ->
       exists outp, convert_bump pixels 2 1 = Ok outp /\
                    length outp = length pixels /\
                    load_mbm f = Ok (2, 1, outp)).
Proof.
  intros f. split.
  - split; [reflexivity | split; [lia | split; [lia | vm_compute; discriminate]]].
  - apply (load_mbm_rgb f 2 1 0);
      [reflexivity | lia | lia | vm_compute; discriminate].
Defined.

(** C4 as stated fails on a header with two negative sizes: their product
    is positive, one triple is read, and it is stored into an empty list,
    which then has three elements and no alpha. *)
Lemma load_mbm_rgb_negative_sizes :
  header_fields (mbm_file 0x50534B03 (-1) (-1) 0 24 [Byte.x01; Byte.x02; Byte.x03])
  = Some (0x50534B03, -1, -1, 0, 24) /\
  (-1) * (-1) * 3
  <= Z.of_nat (length (payload
       (mbm_file 0x50534B03 (-1) (-1) 0 24 [Byte.x01; Byte.x02; Byte.x03]))) /\
  load_mbm (mbm_file 0x50534B03 (-1) (-1) 0 24 [Byte.x01; Byte.x02; Byte.x03])
  = Ok (-1, -1, [1; 2; 3]) /\
  Py.slice [1; 2; 3] (0 * 4) (0 * 4 + 4) <> [1; 2; 3] ++ [255].
Proof.
  split; [reflexivity|]. split; [vm_compute; discriminate|].
  split; [reflexivity|]. vm_compute. discriminate.
Qed.

(** C7, as the code has it: with the right magic, bitsPerPixel 24 or 32, a
    width and a height that are not negative and a payload that holds
    width*height pixels of that depth, [load_mbm] returns the width and
    the height of the header and a buffer of width*height*4 elements,
    whatever the bump flag. *)
Theorem load_mbm_size (f : file) (width height bump bpp : Z) :
  header_fields f = Some (0x50534B03, width, height, bump, bpp) ->
  bpp = 24 \/ bpp = 32 ->
  0 <= width -> 0 <= height ->
  width * height * (bpp / 8) <= Z.of_nat (length (payload f)) ->
  exists pixels,
    load_mbm f = Ok (width, height, pixels) /\
    Z.of_nat (length pixels) = width * height * 4.
Proof.
  intros Hhdr Hbpp Hw Hh Hlen.
  assert (exists pixels,
            load_mbm_pixels (payload f) width height bpp = Ok pixels /\
            Z.of_nat (length pixels) = width * height * 4)
    as (pixels & Hrun & Hlen').
  { destruct Hbpp as [-> | ->].
    - change (24 / 8) with 3 in Hlen.
      destruct (load_mbm_pixels_24 (payload f) width height Hw Hh Hlen)
        as (pixels & _ & Hrun & Hlen' & _). eauto.
    - change (32 / 8) with 4 in Hlen.
      by apply load_mbm_pixels_32. }
  destruct (load_mbm_return f width height bump bpp pixels Hhdr Hrun Hw Hh Hlen')
    as [Hflat Hbump].
  destruct (decide (bump = 0)) as [H0|H0].
  - exists pixels. split; [by apply Hflat | done].
  - destruct (Hbump H0) as (outp & _ & Hlen'' & Hret).
    exists outp. split; [done | lia].
Qed.

Lemma load_mbm_size_witness :
  let f := mbm_file 0x50534B03 1 2 1 32
             [Byte.x0a; Byte.x0b; Byte.x0c; Byte.x0d;
              Byte.x0e; Byte.x0f; Byte.x10; Byte.x11] in
  (header_fields f = Some (0x50534B03, 1, 2, 1, 32) /\
   (32 = 24 \/ 32 = 32) /\ 0 <= 1 /\ 0 <= 2 /\
   1 * 2 * (32 / 8) <= Z.of_nat (length (payload f))) /\
  exists pixels,
    load_mbm f = Ok (1, 2, pixels) /\
    Z.of_nat (length pixels) = 1 * 2 * 4.
Proof.
  intros f. split.
  - split; [reflexivity|]. split; [right; reflexivity|].
    split; [lia|]. split; [lia | vm_compute; discriminate].
  - apply (load_mbm_size f 1 2 1 32);
      [reflexivity | right; reflexivity | lia | lia | vm_compute; discriminate].
Defined.

(** C7 as stated fails on a payload that is too short: [read] returns the
    bytes there are, here none, and they are returned as the buffer.  It
    fails as well on a negative width: the 24-bit buffer is then empty,
    and no list has a negative length. *)
Lemma load_mbm_short_payload :
  (header_fields (mbm_file 0x50534B03 1 1 0 32 [])
   = Some (0x50534B03, 1, 1, 0, 32) /\
   load_mbm (mbm_file 0x50534B03 1 1 0 32 []) = Ok (1, 1, []) /\
   Z.of_nat (length (@nil Z)) <> 1 * 1 * 4) /\
  (header_fields (mbm_file 0x50534B03 (-1) 1 0 24 [])
   = Some (0x50534B03, -1, 1, 0, 24) /\
   load_mbm (mbm_file 0x50534B03 (-1) 1 0 24 []) = Ok (-1, 1, []) /\
   Z.of_nat (length (@nil Z)) <> (-1) * 1 * 4).
Proof.
  split.
  - split; [reflexivity|]. split; [reflexivity|]. simpl. lia.
  - split; [reflexivity|]. split; [reflexivity|]. simpl. lia.
Qed.

(** ** create_object_paths *)

(** Induction on a tree, with the property at hand for every child. *)
Lemma MuObj_children_ind (P : MuObj -> Prop) :
  (forall name cs, Forall P cs -> P (MuObject name cs)) ->
  forall node, P node.
Proof.
  intros Hnode. fix IH 1. intros [name cs]. apply Hnode.
  induction cs as [|child cs IHcs]; constructor; [apply IH | apply IHcs].
Qed.

Lemma list_pop_snoc {A} (l : list A) (x : A) : list_pop (l ++ [x]) = Ok l.
Proof.
  unfold list_pop. rewrite removelast_last. by destruct l.
Qed.

Lemma record_visit_under (r : ref) (parents : list string) (i : nat)
    (name : string) (mu : Mu) (v : visit) :
  record_visit r parents mu (under i name v)
  = record_visit (r ++ [i]) (parents ++ [name]) mu v.
Proof.
  unfold record_visit, under. simpl.
  rewrite <- !(assoc_L (++) r [i]), <- !(assoc_L (++) parents [name]). done.
Qed.

Lemma foldl_record_under (r : ref) (parents : list string) (i : nat)
    (name : string) (vs : list visit) (mu : Mu) :
  foldl (record_visit r parents) mu (under i name <$> vs)
  = foldl (record_visit (r ++ [i]) (parents ++ [name])) mu vs.
Proof.
  revert mu. induction vs as [|v vs IH]; intros mu; simpl; [done|].
  by rewrite record_visit_under, IH.
Qed.

(** The loop over the children, when the recursive call on each child
    records the visits of its subtree and gives the list back. *)
Lemma for_children_visits (r : ref) (parents : list string) (name : string)
    (cs : list MuObj) :
  Forall (fun child => forall mu r parents,
            create_object_paths_rec mu r child parents
            = Ok (foldl (record_visit r parents) mu (preorder_visits child),
                  parents)) cs ->
  forall (i : nat) (mu : Mu),
    for_children
      (fun mu i child parents =>
         create_object_paths_rec mu (r ++ [i]) child parents)
      i cs (mu, parents ++ [name])
    = Ok (foldl (record_visit r parents) mu
            (subtrees (fun i child => under i name <$> preorder_visits child)
               i cs),
          parents ++ [name]).
Proof.
  induction 1 as [|child cs Hchild _ IH]; intros i mu; simpl; [done|].
  rewrite Hchild. cbn [rbind].
  rewrite foldl_app, foldl_record_under. apply IH.
Qed.

(** The recursive call records the visits of the pre-order traversal of
    its subtree, first to last, and leaves [parents] as it found it. *)
Lemma create_object_paths_rec_visits (node : MuObj) :
  forall (mu : Mu) (r : ref) (parents : list string),
    create_object_paths_rec mu r node parents
    = Ok (foldl (record_visit r parents) mu (preorder_visits node), parents).
Proof.
  induction node as [name cs IH] using MuObj_children_ind.
  intros mu r parents. cbn [create_object_paths_rec preorder_visits].
  rewrite (for_children_visits r parents name cs IH). cbn [rbind].
  rewrite list_pop_snoc. cbn [rbind foldl].
  do 3 f_equal. unfold record_visit. simpl. by rewrite app_nil_r.
Qed.

(** The whole pass. *)
Lemma create_object_paths_visits (mu : Mu) :
  create_object_paths mu
  = Ok (foldl (record_visit [] []) (MkMu (obj mu) [] [] (node_path mu))
          (preorder_visits (obj mu))).
Proof.
  unfold create_object_paths. cbn [obj].
  by rewrite create_object_paths_rec_visits.
Qed.

(** *** What a sequence of visits leaves in the tables *)

Lemma record_visits_obj (r : ref) (parents : list string) (vs : list visit)
    (mu : Mu) :
  obj (foldl (record_visit r parents) mu vs) = obj mu.
Proof.
  revert mu. induction vs as [|v vs IH]; intros mu; simpl; [done|].
  by rewrite IH.
Qed.

Lemma record_visits_objects (vs : list visit) (mu : Mu) :
  objects (foldl (record_visit [] []) mu vs)
  = PyDict.set_all ((fun v => (visit_name v, visit_ref v)) <$> vs) (objects mu).
Proof.
  revert mu. induction vs as [|v vs IH]; intros mu; simpl; [done|].
  by rewrite IH.
Qed.

Lemma record_visits_object_paths (vs : list visit) (mu : Mu) :
  object_paths (foldl (record_visit [] []) mu vs)
  = PyDict.set_all ((fun v => (visit_path v, visit_ref v)) <$> vs)
      (object_paths mu).
Proof.
  revert mu. induction vs as [|v vs IH]; intros mu; simpl; [done|].
  by rewrite IH.
Qed.

(** The [path] attribute of a visited node, when the visits of one node
    all carry the same path. *)
Lemma record_visits_node_path (vs : list visit) (g : ref -> string) :
  (forall v, v ∈ vs -> visit_path v = g (visit_ref v)) ->
  forall (mu : Mu) (r : ref),
    r ∈ visit_ref <$> vs ->
    node_path (foldl (record_visit [] []) mu vs) !! r = Some (g r).
Proof.
  induction vs as [|v vs IH]; intros Hg mu r Hr; simpl in *.
  - by apply elem_of_nil in Hr.
  - destruct (decide (r ∈ visit_ref <$> vs)) as [Hin|Hout].
    + apply IH; [|done]. intros v' Hv'. apply Hg. by right.
    + apply elem_of_cons in Hr as [-> | Hr]; [|done].
      assert (Hkeep : forall vs' mu',
                visit_ref v ∉ visit_ref <$> vs' ->
                node_path (foldl (record_visit [] []) mu' vs') !! visit_ref v
                = node_path mu' !! visit_ref v).
      { clear. induction vs' as [|v' vs' IH']; intros mu' Hn; simpl; [done|].
        rewrite fmap_cons in Hn. apply not_elem_of_cons in Hn as [Hne Hn].
        rewrite IH' by done. unfold record_visit. simpl.
        by rewrite lookup_insert_ne. }
      rewrite Hkeep by done. unfold record_visit. simpl.
      rewrite lookup_insert_eq. f_equal. apply Hg. left.
Qed.

(** *** Visits and positions *)

Lemma elem_of_subtrees (visits : nat -> MuObj -> list visit) (cs : list MuObj)
    (i : nat) (v : visit) :
  v ∈ subtrees visits i cs
  <-> exists j child, cs !! j = Some child /\ v ∈ visits (i + j)%nat child.
Proof.
  revert i. induction cs as [|c cs IH]; intros i; simpl.
  - split; [intros H; by apply elem_of_nil in H | intros (j & child & H & _); done].
  - rewrite elem_of_app, IH. split.
    + intros [Hv | (j & child & Hj & Hv)].
      * exists 0%nat, c. by rewrite Nat.add_0_r.
      * exists (S j), child. split; [done|].
        by replace (i + S j)%nat with (S i + j)%nat by lia.
    + intros ([|j] & child & Hj & Hv); simpl in Hj.
      * left. injection Hj as ->. by rewrite Nat.add_0_r in Hv.
      * right. exists j, child. split; [done|].
        by replace (S i + j)%nat with (i + S j)%nat by lia.
Qed.

(** The visits of a node: the node itself, or a visit of a child's
    subtree, one level down. *)
Lemma elem_of_preorder_visits (node : MuObj) (v : visit) :
  v ∈ preorder_visits node
  <-> v = ([], [], transform_name node) \/
      exists j child v',
        children node !! j = Some child /\ v' ∈ preorder_visits child /\
        v = under j (transform_name node) v'.
Proof.
  destruct node as [name cs]. cbn [preorder_visits transform_name children].
  rewrite elem_of_cons, elem_of_subtrees. split.
  - intros [-> | (j & child & Hj & Hv)]; [by left | right].
    apply list_elem_of_fmap in Hv as (v' & -> & Hv').
    exists j, child, v'. done.
  - intros [-> | (j & child & v' & Hj & Hv' & ->)]; [by left | right].
    exists j, child. split; [done|]. simpl.
    apply list_elem_of_fmap. eauto.
Qed.

(** Every node of the tree is visited, with the names of its ancestors. *)
Lemma node_at_visited (r : ref) :
  forall (node n : MuObj),
    node_at node r = Some n ->
    exists ancestors,
      ancestor_names node r = Some ancestors /\
      (r, ancestors, transform_name n) ∈ preorder_visits node.
Proof.
  induction r as [|i r IH]; intros node n Hn; simpl in *.
  - injection Hn as ->. exists []. split; [done|].
    apply elem_of_preorder_visits. by left.
  - destruct (children node !! i) as [child|] eqn:Hi; [|done].
    destruct (IH child n Hn) as (anc & Hanc & Hv).
    exists (transform_name node :: anc). rewrite Hanc. split; [done|].
    apply elem_of_preorder_visits. right.
    exists i, child, (r, anc, transform_name n). done.
Qed.

(** Every visit is the visit of a node of the tree. *)
Lemma visited_node_at (r : ref) :
  forall (node : MuObj) (ancestors : list string) (name : string),
    (r, ancestors, name) ∈ preorder_visits node ->
    exists n,
      node_at node r = Some n /\
      ancestor_names node r = Some ancestors /\
      transform_name n = name.
Proof.
  induction r as [|i r IH]; intros node anc name Hv;
    apply elem_of_preorder_visits in Hv
      as [Heq | (j & child & [[r' anc'] name'] & Hj & Hv' & Heq)];
    unfold under in Heq; simpl in Heq.
  - simplify_eq. exists node. done.
  - done.
  - done.
  - simplify_eq. simpl. rewrite Hj.
    destruct (IH child anc' name' Hv') as (n & Hn & Hanc & Hname).
    exists n. rewrite Hanc. done.
Qed.

Lemma visit_path_joined (root : MuObj) (v : visit) :
  v ∈ preorder_visits root ->
  visit_path v = joined_path root (visit_ref v).
Proof.
  destruct v as [[r anc] name]. intros Hv.
  destruct (visited_node_at r root anc name Hv) as (n & Hn & Hanc & Hname).
  unfold visit_path, joined_path, visit_ref. simpl.
  rewrite Hn, Hanc. simpl. by rewrite Hname.
Qed.

(** After the pass, every node of the tree has its joined path. *)
Lemma indexed_node_path (mu mu' : Mu) (r : ref) (n : MuObj) :
  create_object_paths mu = Ok mu' ->
  node_at (obj mu) r = Some n ->
  node_path mu' !! r = Some (joined_path (obj mu) r).
Proof.
  rewrite create_object_paths_visits. intros [= <-] Hn.
  apply record_visits_node_path.
  - intros v Hv. by apply visit_path_joined.
  - destruct (node_at_visited r (obj mu) n Hn) as (anc & _ & Hv).
    apply list_elem_of_fmap. exists (r, anc, transform_name n). done.
Qed.

(** *** Joining names *)

Lemma append_cons (c : ascii) (s t : string) :
  String c s +:+ t = String c (s +:+ t).
Proof. reflexivity. Qed.

Lemma append_assoc (s t u : string) : (s +:+ t) +:+ u = s +:+ (t +:+ u).
Proof.
  induction s as [|c s IH]; [reflexivity|].
  by rewrite !append_cons, IH.
Qed.

Lemma concat_cons_cons (sep x y : string) (l : list string) :
  String.concat sep (x :: y :: l) = x +:+ sep +:+ String.concat sep (y :: l).
Proof. reflexivity. Qed.

(** Joining one more name: the join so far, the separator, the name. *)
Lemma concat_snoc (sep x : string) (l : list string) :
  l <> [] ->
  String.concat sep (l ++ [x]) = String.concat sep l +:+ sep +:+ x.
Proof.
  induction l as [|a l IH]; intros Hne; [done|].
  destruct l as [|b l].
  - reflexivity.
  - change ((a :: b :: l) ++ [x]) with (a :: b :: (l ++ [x])).
    rewrite !concat_cons_cons.
    change (b :: l ++ [x]) with ((b :: l) ++ [x]).
    rewrite IH by done. by rewrite !append_assoc.
Qed.

(** *** Positions one level down *)

Lemma node_at_snoc (r : ref) :
  forall (node parent : MuObj) (i : nat),
    node_at node r = Some parent ->
    node_at node (r ++ [i]) = children parent !! i.
Proof.
  induction r as [|j r IH]; intros node parent i Hn; simpl in *.
  - injection Hn as ->. by destruct (children parent !! i).
  - destruct (children node !! j) as [child|]; [|done]. by apply IH.
Qed.

Lemma ancestor_names_snoc (r : ref) :
  forall (node parent child : MuObj) (i : nat) (ancestors : list string),
    node_at node r = Some parent ->
    children parent !! i = Some child ->
    ancestor_names node r = Some ancestors ->
    ancestor_names node (r ++ [i])
    = Some (ancestors ++ [transform_name parent]).
Proof.
  induction r as [|j r IH]; intros node parent child i anc Hn Hi Hanc;
    simpl in *.
  - injection Hn as ->. injection Hanc as <-. by rewrite Hi.
  - destruct (children node !! j) as [c|]; [|done].
    destruct (ancestor_names c r) as [anc'|] eqn:Hanc'; [|done].
    injection Hanc as <-.
    by rewrite (IH c parent child i anc' Hn Hi Hanc').
Qed.

Lemma joined_path_node (root n : MuObj) (r : ref) (ancestors : list string) :
  node_at root r = Some n ->
  ancestor_names root r = Some ancestors ->
  joined_path root r = String.concat "/" (ancestors ++ [transform_name n]).
Proof. intros Hn Hanc. unfold joined_path. by rewrite Hn, Hanc. Qed.

(** The pass returns, keeps the tree, and leaves in the two tables the
    assignments of the pre-order visits, made in order on empty tables. *)
Lemma create_object_paths_tables (mu : Mu) :
  exists mu',
    create_object_paths mu = Ok mu' /\
    obj mu' = obj mu /\
    objects mu'
    = PyDict.set_all ((fun v => (visit_name v, visit_ref v))
                        <$> preorder_visits (obj mu)) [] /\
    object_paths mu'
    = PyDict.set_all ((fun v => (visit_path v, visit_ref v))
                        <$> preorder_visits (obj mu)) [].
Proof.
  eexists. split; [apply create_object_paths_visits|].
  split; [by rewrite record_visits_obj|]. split.
  - by rewrite record_visits_objects.
  - by rewrite record_visits_object_paths.
Qed.

(** C2. The path-indexing pass returns normally on every tree, and then:
    the path of each node is the names of its ancestors from the root and
    its own name joined by "/"; the path of the root is its name and the
    path of any other node is its parent's path, "/" and its own name; the
    name table and the path table are what assigning the nodes one by one
    in pre-order, children in decoded order, gives from empty tables. *)
Theorem create_object_paths_indexes (mu : Mu) :
  exists mu',
    create_object_paths mu = Ok mu' /\
    obj mu' = obj mu /\
    (forall r n, node_at (obj mu) r = Some n ->
       exists ancestors,
         ancestor_names (obj mu) r = Some ancestors /\
         node_path mu' !! r
         = Some (String.concat "/" (ancestors ++ [transform_name n]))) /\
    node_path mu' !! [] = Some (transform_name (obj mu)) /\
    (forall r i parent child,
       node_at (obj mu) r = Some parent ->
       children parent !! i = Some child ->
       exists parent_path,
         node_path mu' !! r = Some parent_path /\
         node_path mu' !! (r ++ [i])
         = Some (parent_path +:+ "/" +:+ transform_name child)) /\
    objects mu'
    = PyDict.set_all ((fun v => (visit_name v, visit_ref v))
                        <$> preorder_visits (obj mu)) [] /\
    object_paths mu'
    = PyDict.set_all ((fun v => (visit_path v, visit_ref v))
                        <$> preorder_visits (obj mu)) [].
Proof.
  destruct (create_object_paths_tables mu)
    as (mu' & Hrun & Hobj & Hobjects & Hpaths).
  exists mu'. split; [exact Hrun|].
  assert (Hpath : forall r n, node_at (obj mu) r = Some n ->
            exists ancestors,
              ancestor_names (obj mu) r = Some ancestors /\
              node_path mu' !! r
              = Some (String.concat "/" (ancestors ++ [transform_name n]))).
  { intros r n Hn.
    destruct (node_at_visited r (obj mu) n Hn) as (anc & Hanc & _).
    exists anc. split; [done|].
    rewrite (indexed_node_path mu mu' r n Hrun Hn).
    by rewrite (joined_path_node _ n r anc). }
  split; [done|].
  split; [exact Hpath|].
  split.
  { destruct (Hpath [] (obj mu) eq_refl) as (anc & Hanc & Hp).
    injection Hanc as <-. exact Hp. }
  split; [|done].
  intros r i parent child Hparent Hchild.
  destruct (Hpath r parent Hparent) as (anc & Hanc & Hp).
  eexists. split; [exact Hp|].
  assert (Hn : node_at (obj mu) (r ++ [i]) = Some child)
    by (by rewrite (node_at_snoc r _ parent)).
  destruct (Hpath (r ++ [i]) child Hn) as (anc' & Hanc' & Hp').
  rewrite (ancestor_names_snoc r _ parent child i anc) in Hanc' by done.
  injection Hanc' as <-. rewrite Hp'. f_equal.
  apply concat_snoc. by destruct anc.
Qed.

(** *** Lookups in the tables *)

Lemma dict_get_set_eq {V} (k : string) (v : V) (d : list (string * V)) :
  PyDict.get k (PyDict.set k v d) = Some v.
Proof.
  induction d as [|[k' v'] d IH]; simpl.
  - by rewrite decide_True.
  - destruct (decide (k' = k)) as [->|Hne]; simpl.
    + by rewrite decide_True.
    + by rewrite decide_False.
Qed.

Lemma dict_get_set_ne {V} (k k' : string) (v : V) (d : list (string * V)) :
  k <> k' -> PyDict.get k' (PyDict.set k v d) = PyDict.get k' d.
Proof.
  intros Hne. induction d as [|[k0 v0] d IH]; simpl.
  - by rewrite decide_False.
  - destruct (decide (k0 = k)) as [->|Hne0]; simpl.
    + by rewrite !decide_False.
    + destruct (decide (k0 = k')); [done | apply IH].
Qed.

(** After a sequence of assignments a key holds the value of the last
    assignment to it, or what it held before when there is none. *)
Lemma dict_get_set_all {V} (k : string) (kvs d : list (string * V)) :
  PyDict.get k (PyDict.set_all kvs d)
  = match last (filter (fun kv => kv.1 = k) kvs) with
    | Some kv => Some kv.2
    | None => PyDict.get k d
    end.
Proof.
  unfold PyDict.set_all. revert d.
  induction kvs as [|[k0 v0] kvs IH]; intros d; simpl; [done|].
  rewrite IH, filter_cons. simpl.
  destruct (decide (k0 = k)) as [->|Hne].
  - rewrite last_cons.
    destruct (last (filter (fun kv => kv.1 = k) kvs)); [done|].
    simpl. apply dict_get_set_eq.
  - destruct (last (filter (fun kv => kv.1 = k) kvs)); [done|].
    by apply dict_get_set_ne.
Qed.

(** A key that is assigned, and only ever to one value, holds it. *)
Lemma dict_get_set_all_unique {V} (k : string) (v : V)
    (kvs d : list (string * V)) :
  (exists kv, kv ∈ kvs /\ kv.1 = k) ->
  (forall kv, kv ∈ kvs -> kv.1 = k -> kv.2 = v) ->
  PyDict.get k (PyDict.set_all kvs d) = Some v.
Proof.
  intros (kv & Hin & Hk) Hall. rewrite dict_get_set_all.
  destruct (last (filter (fun kv => kv.1 = k) kvs)) as [kv'|] eqn:Hlast.
  - apply last_Some_elem_of, list_elem_of_filter in Hlast as [Hk' Hin'].
    f_equal. by apply Hall.
  - apply last_None in Hlast.
    assert (kv ∈ filter (fun kv => kv.1 = k) kvs) as Hf
      by (by apply list_elem_of_filter).
    rewrite Hlast in Hf. by apply elem_of_nil in Hf.
Qed.

Lemma last_filter_fmap {A B} (f : A -> B) (P : B -> Prop)
    `{forall b, Decision (P b)} (l : list A) :
  last (filter P (f <$> l)) = f <$> last (filter (fun a => P (f a)) l).
Proof.
  induction l as [|a l IH]; [done|].
  rewrite fmap_cons, !filter_cons.
  destruct (decide (P (f a))); [|done].
  rewrite !last_cons, IH.
  by destruct (last (filter (fun a => P (f a)) l)).
Qed.

Lemma filter_none {A} (P : A -> Prop) `{forall a, Decision (P a)}
    (l : list A) :
  (forall a, a ∈ l -> ~ P a) -> filter P l = [].
Proof.
  induction l as [|a l IH]; intros Hl; [done|].
  rewrite filter_cons_False by (apply Hl; left).
  apply IH. intros a' Ha'. apply Hl. by right.
Qed.

(** C8. After the path-indexing pass the name table maps every name to
    the node of the last visit, in pre-order, that bears it: a later node
    of the same name replaces an earlier one.  Every name of the tree is
    in the table. *)
Theorem objects_last_writer_wins (mu : Mu) :
  exists mu',
    create_object_paths mu = Ok mu' /\
    (forall name,
       PyDict.get name (objects mu')
       = visit_ref <$> last (filter (fun v => visit_name v = name)
                               (preorder_visits (obj mu)))) /\
    (forall before v after,
       preorder_visits (obj mu) = before ++ v :: after ->
       (forall v', v' ∈ after -> visit_name v' <> visit_name v) ->
       PyDict.get (visit_name v) (objects mu') = Some (visit_ref v)) /\
    (forall r n, node_at (obj mu) r = Some n ->
       is_Some (PyDict.get (transform_name n) (objects mu'))).
Proof.
  destruct (create_object_paths_tables mu)
    as (mu' & Hrun & _ & Hobjects & _).
  exists mu'. split; [done|].
  assert (Hget : forall name,
            PyDict.get name (objects mu')
            = visit_ref <$> last (filter (fun v => visit_name v = name)
                                    (preorder_visits (obj mu)))).
  { intros name. rewrite Hobjects, dict_get_set_all.
    rewrite (last_filter_fmap (fun v => (visit_name v, visit_ref v))
               (fun kv => kv.1 = name)).
    simpl. by destruct (last _). }
  split; [exact Hget|]. split.
  - intros before v after Hvisits Hafter. rewrite Hget, Hvisits.
    rewrite filter_app, filter_cons_True by done.
    replace (filter (fun v0 => visit_name v0 = visit_name v) after)
      with (@nil visit).
    + by rewrite last_snoc.
    + symmetry. apply filter_none. intros v' Hv'. by apply Hafter.
  - intros r n Hn. rewrite Hget.
    destruct (node_at_visited r (obj mu) n Hn) as (anc & _ & Hv).
    apply fmap_is_Some, last_is_Some. intros Hnil.
    assert ((r, anc, transform_name n)
              ∈ filter (fun v => visit_name v = transform_name n)
                  (preorder_visits (obj mu))) as Hf
      by (by apply list_elem_of_filter).
    rewrite Hnil in Hf. by apply elem_of_nil in Hf.
Qed.

(** *** When paths are unique *)

Lemma append_slash_inj (a : string) :
  forall b x y : string,
    has_slash a = false -> has_slash b = false ->
    after_name x -> after_name y ->
    a +:+ x = b +:+ y -> a = b /\ x = y.
Proof.
  induction a as [|c a IH]; intros [|d b] x y Ha Hb Hx Hy Heq.
  - done.
  - change (x = String d (b +:+ y)) in Heq. simpl in Hb.
    apply orb_false_iff in Hb as [Hd _]. apply bool_decide_eq_false in Hd.
    destruct Hx as [-> | (x' & ->)]; [done|]. by injection Heq as <- _.
  - change (String c (a +:+ x) = y) in Heq. simpl in Ha.
    apply orb_false_iff in Ha as [Hc _]. apply bool_decide_eq_false in Hc.
    destruct Hy as [-> | (y' & ->)]; [done|]. by injection Heq as -> _.
  - rewrite !append_cons in Heq. injection Heq as -> Heq.
    simpl in Ha, Hb.
    apply orb_false_iff in Ha as [_ Ha]. apply orb_false_iff in Hb as [_ Hb].
    destruct (IH b x y Ha Hb Hx Hy Heq) as [-> ->]. done.
Qed.

Lemma concat_cons_rest (a : string) (l : list string) :
  String.concat "/" (a :: l) = a +:+ joined_rest l.
Proof.
  destruct l as [|b l]; simpl.
  - induction a as [|c a IH]; [done|]. by rewrite append_cons, <- IH.
  - done.
Qed.

Lemma joined_rest_after_name (l : list string) : after_name (joined_rest l).
Proof. destruct l; [by left | right; eexists; reflexivity]. Qed.

(** Names without the separator can be read back from their join. *)
Lemma concat_slash_inj (l1 : list string) :
  forall l2 : list string,
    Forall (fun s => has_slash s = false) l1 ->
    Forall (fun s => has_slash s = false) l2 ->
    l1 <> [] -> l2 <> [] ->
    String.concat "/" l1 = String.concat "/" l2 -> l1 = l2.
Proof.
  induction l1 as [|a l1 IH]; intros [|b l2] H1 H2 Hn1 Hn2 Heq; try done.
  rewrite !concat_cons_rest in Heq.
  apply Forall_cons in H1 as [Ha H1]. apply Forall_cons in H2 as [Hb H2].
  apply append_slash_inj in Heq as [-> Hrest];
    [|done|done|apply joined_rest_after_name|apply joined_rest_after_name].
  f_equal. destruct l1 as [|a1 l1], l2 as [|b1 l2]; try done.
  unfold joined_rest in Hrest. injection Hrest as Hrest.
  by apply IH.
Qed.

Lemma forall_nodes_here (p : MuObj -> bool) (node : MuObj) :
  forall_nodes p node = true -> p node = true.
Proof. destruct node. simpl. by intros [? _]%andb_true_iff. Qed.

Lemma forall_nodes_child (p : MuObj -> bool) (node child : MuObj) (i : nat) :
  forall_nodes p node = true -> children node !! i = Some child ->
  forall_nodes p child = true.
Proof.
  destruct node as [name cs]. simpl. intros [_ Hcs]%andb_true_iff Hi.
  rewrite forallb_forall in Hcs. apply Hcs.
  apply list_elem_of_In. by eapply list_elem_of_lookup_2.
Qed.

Lemma forall_nodes_node_at (p : MuObj -> bool) (r : ref) :
  forall node n : MuObj,
    forall_nodes p node = true -> node_at node r = Some n -> p n = true.
Proof.
  induction r as [|i r IH]; intros node n Hp Hn; simpl in Hn.
  - injection Hn as <-. by apply forall_nodes_here.
  - destruct (children node !! i) as [child|] eqn:Hi; [|done].
    apply (IH child); [|done]. by eapply forall_nodes_child.
Qed.

Lemma slash_free_ancestors (r : ref) :
  forall (node : MuObj) (ancestors : list string),
    slash_free node = true ->
    ancestor_names node r = Some ancestors ->
    Forall (fun s => has_slash s = false) ancestors.
Proof.
  induction r as [|i r IH]; intros node anc Hfree Hanc; simpl in Hanc.
  - injection Hanc as <-. constructor.
  - destruct (children node !! i) as [child|] eqn:Hi; [|done].
    destruct (ancestor_names child r) as [anc'|] eqn:Hanc'; [|done].
    injection Hanc as <-. constructor.
    + apply forall_nodes_here in Hfree. by apply negb_true_iff in Hfree.
    + apply (IH child); [|done]. by eapply forall_nodes_child.
Qed.

(** The names on the way to a node start with the name of the root. *)
Lemma chain_head (r : ref) (node n : MuObj) (ancestors : list string) :
  node_at node r = Some n ->
  ancestor_names node r = Some ancestors ->
  head (ancestors ++ [transform_name n]) = Some (transform_name node).
Proof.
  destruct r as [|i r]; simpl; intros Hn Hanc.
  - injection Hn as <-. by injection Hanc as <-.
  - destruct (children node !! i) as [child|]; [|done].
    destruct (ancestor_names child r) as [anc'|]; [|done].
    by injection Hanc as <-.
Qed.

(** With distinct names among the children of every node, the names on
    the way to a node tell where the node is. *)
Lemma chain_ref_inj (r1 : ref) :
  forall (node : MuObj) (r2 : ref) (n1 n2 : MuObj) (a1 a2 : list string),
    distinct_siblings node = true ->
    node_at node r1 = Some n1 -> node_at node r2 = Some n2 ->
    ancestor_names node r1 = Some a1 -> ancestor_names node r2 = Some a2 ->
    a1 ++ [transform_name n1] = a2 ++ [transform_name n2] ->
    r1 = r2.
Proof.
  induction r1 as [|i r1 IH]; intros node [|j r2] n1 n2 a1 a2 Hd Hn1 Hn2 Ha1 Ha2 Heq;
    simpl in *.
  - done.
  - destruct (children node !! j) as [c2|]; [|done].
    destruct (ancestor_names c2 r2) as [a2'|]; [|done].
    injection Ha1 as <-. injection Ha2 as <-. simpl in Heq.
    injection Heq as _ Heq. by destruct a2'.
  - destruct (children node !! i) as [c1|]; [|done].
    destruct (ancestor_names c1 r1) as [a1'|]; [|done].
    injection Ha1 as <-. injection Ha2 as <-. simpl in Heq.
    injection Heq as _ Heq. by destruct a1'.
  - destruct (children node !! i) as [c1|] eqn:Hi; [|done].
    destruct (children node !! j) as [c2|] eqn:Hj; [|done].
    destruct (ancestor_names c1 r1) as [a1'|] eqn:Ha1'; [|done].
    destruct (ancestor_names c2 r2) as [a2'|] eqn:Ha2'; [|done].
    injection Ha1 as <-. injection Ha2 as <-. simpl in Heq.
    injection Heq as Heq.
    pose proof (chain_head r1 c1 n1 a1' Hn1 Ha1') as Hh1.
    pose proof (chain_head r2 c2 n2 a2' Hn2 Ha2') as Hh2.
    rewrite Heq, Hh2 in Hh1. injection Hh1 as Hname.
    assert (Hnodup : NoDup (transform_name <$> children node)).
    { apply forall_nodes_here in Hd. by apply bool_decide_eq_true in Hd. }
    assert (i = j) as <-.
    { apply (NoDup_lookup _ i j (transform_name c1) Hnodup).
      - by rewrite list_lookup_fmap, Hi.
      - rewrite list_lookup_fmap, Hj. simpl. congruence. }
    assert (c1 = c2) as <- by congruence.
    f_equal. apply (IH c1 r2 n1 n2 a1' a2'); try done.
    by eapply forall_nodes_child.
Qed.

(** Two nodes with the same joined path, in a tree whose names have no
    separator and whose siblings have distinct names, are one node. *)
Lemma joined_path_inj (root : MuObj) (r1 r2 : ref) (n1 n2 : MuObj) :
  slash_free root = true -> distinct_siblings root = true ->
  node_at root r1 = Some n1 -> node_at root r2 = Some n2 ->
  joined_path root r1 = joined_path root r2 -> r1 = r2.
Proof.
  intros Hfree Hd Hn1 Hn2 Heq.
  destruct (node_at_visited r1 root n1 Hn1) as (a1 & Ha1 & _).
  destruct (node_at_visited r2 root n2 Hn2) as (a2 & Ha2 & _).
  rewrite (joined_path_node root n1 r1 a1), (joined_path_node root n2 r2 a2)
    in Heq by done.
  apply concat_slash_inj in Heq.
  - by apply (chain_ref_inj r1 root r2 n1 n2 a1 a2).
  - apply Forall_app. split; [by eapply slash_free_ancestors|].
    constructor; [|constructor].
    apply (forall_nodes_node_at _ r1 root n1) in Hfree; [|done].
    by apply negb_true_iff in Hfree.
  - apply Forall_app. split; [by eapply slash_free_ancestors|].
    constructor; [|constructor].
    apply (forall_nodes_node_at _ r2 root n2) in Hfree; [|done].
    by apply negb_true_iff in Hfree.
  - by destruct a1.
  - by destruct a2.
Qed.

(** C3, as the code has it: in a tree where no name contains "/" and no
    two children of one node have the same name, the paths the pass
    assigns are pairwise distinct, and the path table leads from the path
    of every node to that node. *)
Theorem create_object_paths_unique (mu : Mu) :
  slash_free (obj mu) = true ->
  distinct_siblings (obj mu) = true ->
  exists mu',
    create_object_paths mu = Ok mu' /\
    (forall r1 r2 n1 n2 p,
       node_at (obj mu) r1 = Some n1 -> node_at (obj mu) r2 = Some n2 ->
       node_path mu' !! r1 = Some p -> node_path mu' !! r2 = Some p ->
       r1 = r2) /\
    (forall r n p,
       node_at (obj mu) r = Some n -> node_path mu' !! r = Some p ->
       PyDict.get p (object_paths mu') = Some r).
Proof.
  intros Hfree Hd.
  destruct (create_object_paths_tables mu)
    as (mu' & Hrun & _ & _ & Hpaths).
  exists mu'. split; [done|]. split.
  - intros r1 r2 n1 n2 p Hn1 Hn2 Hp1 Hp2.
    rewrite (indexed_node_path mu mu' r1 n1 Hrun Hn1) in Hp1.
    rewrite (indexed_node_path mu mu' r2 n2 Hrun Hn2) in Hp2.
    apply (joined_path_inj (obj mu) r1 r2 n1 n2); try done. congruence.
  - intros r n p Hn Hp.
    rewrite (indexed_node_path mu mu' r n Hrun Hn) in Hp.
    injection Hp as <-. rewrite Hpaths.
    destruct (node_at_visited r (obj mu) n Hn) as (anc & Hanc & Hv).
    apply dict_get_set_all_unique.
    + exists (joined_path (obj mu) r, r). split; [|done].
      apply list_elem_of_fmap. exists (r, anc, transform_name n).
      split; [|done]. f_equal.
      by rewrite (visit_path_joined (obj mu)).
    + intros [p' r'] Hin Hkey.
      apply list_elem_of_fmap in Hin as ([[r0 a0] name0] & Heq & Hv0).
      injection Heq as -> ->. cbn [fst snd] in Hkey |- *.
      change (visit_ref (r0, a0, name0)) with r0.
      destruct (visited_node_at r0 (obj mu) a0 name0 Hv0)
        as (n0 & Hn0 & _ & _).
      apply (joined_path_inj (obj mu) r0 r n0 n); try done.
      pose proof (visit_path_joined (obj mu) _ Hv0) as Hj.
      change (visit_ref (r0, a0, name0)) with r0 in Hj. congruence.
Qed.

Lemma create_object_paths_unique_witness :
  let mu := MkMu (MuObject "root" [MuObject "wheel" [MuObject "hub" []];
                                   MuObject "door" [MuObject "hub" []]])
                 [] [] ∅ in
  (slash_free (obj mu) = true /\ distinct_siblings (obj mu) = true) /\
  exists mu',
    create_object_paths mu = Ok mu' /\
    (forall r1 r2 n1 n2 p,
       node_at (obj mu) r1 = Some n1 -> node_at (obj mu) r2 = Some n2 ->
       node_path mu' !! r1 = Some p -> node_path mu' !! r2 = Some p ->
       r1 = r2) /\
    (forall r n p,
       node_at (obj mu) r = Some n -> node_path mu' !! r = Some p ->
       PyDict.get p (object_paths mu') = Some r).
Proof.
  intros mu. split.
  - split; vm_compute; reflexivity.
  - apply (create_object_paths_unique mu); vm_compute; reflexivity.
Defined.

(** C3 as stated fails on two children of one node with the same name:
    they get the same path, and the path table keeps the second only.  It
    fails as well when a name contains the separator: the child "b/c" and
    the grandchild "c" of the child "b" get the same path. *)
Lemma create_object_paths_same_path :
  returns
    (create_object_paths
       (MkMu (MuObject "a" [MuObject "b" []; MuObject "b" []]) [] [] ∅))
    (fun mu' =>
       node_path mu' !! [0%nat] = Some "a/b"%string /\
       node_path mu' !! [1%nat] = Some "a/b"%string /\
       [0%nat] <> [1%nat] /\
       PyDict.get "a/b"%string (object_paths mu') = Some [1%nat]) /\
  returns
    (create_object_paths
       (MkMu (MuObject "a" [MuObject "b/c" []; MuObject "b" [MuObject "c" []]])
             [] [] ∅))
    (fun mu' =>
       node_path mu' !! [0%nat] = Some "a/b/c"%string /\
       node_path mu' !! [1%nat; 0%nat] = Some "a/b/c"%string /\
       [0%nat] <> [1%nat; 0%nat]).
Proof.
  split; vm_compute.
  - split; [reflexivity|]. split; [reflexivity|].
    split; [discriminate | reflexivity].
  - split; [reflexivity|]. split; [reflexivity | discriminate].
Qed.

(** ** create_action *)

(** C9. For a clip of a node that has a path, every curve of the clip is
    looked up in the path table with the path of the node itself when the
    relative path of the curve is empty, and with the path of the node,
    "/" and the relative path otherwise; the outcome is what the table
    holds at that key. *)
Theorem create_action_lookup_path {float : Type} (mu : Mu) (muobj : ref)
    (own_path : string) (clips : list (MuClip float)) (i j : nat)
    (clip : MuClip float) (curve : MuCurve float) :
  node_path mu !! muobj = Some own_path ->
  clips !! i = Some clip ->
  curves clip !! j = Some curve ->
  exists targets clip_targets target,
    create_object_actions mu muobj clips = Ok targets /\
    targets !! i = Some clip_targets /\
    clip_targets !! j = Some target /\
    (path curve = EmptyString -> lookup_key target = own_path) /\
    (path curve <> EmptyString ->
       lookup_key target = own_path +:+ "/" +:+ path curve) /\
    target = match PyDict.get (lookup_key target) (object_paths mu) with
             | None => UnknownPath (lookup_key target)
             | Some node => Target (lookup_key target) node
             end.
Proof.
  intros Hpath Hclip Hcurve.
  exists (create_action mu own_path <$> clips),
         (create_action mu own_path clip),
         (curve_lookup mu own_path curve).
  split; [|split; [|split]].
  - unfold create_object_actions. by rewrite Hpath.
  - by rewrite list_lookup_fmap, Hclip.
  - unfold create_action. by rewrite list_lookup_fmap, Hcurve.
  - assert (Hkey : lookup_key (curve_lookup mu own_path curve)
                   = curve_mu_path own_path curve).
    { unfold curve_lookup. by destruct (PyDict.get _ _). }
    rewrite Hkey. split; [|split].
    + intros Hempty. unfold curve_mu_path. by rewrite bool_decide_eq_true_2.
    + intros Hrel. unfold curve_mu_path. by rewrite bool_decide_eq_false_2.
    + unfold curve_lookup. by destruct (PyDict.get _ _).
Qed.

Lemma create_action_lookup_path_witness :
  let mu := MkMu (MuObject "a" [MuObject "b" []])
                 [("a", []); ("b", [0%nat])]
                 [("a", []); ("a/b", [0%nat])]
                 {[ [] := "a"%string; [0%nat] := "a/b"%string ]} in
  let curve := MkCurve Z "b" "m_LocalPosition.x" [] in
  let clip := MkClip Z "open" [MkCurve Z EmptyString "m_LocalScale.y" []; curve] in
  (node_path mu !! [] = Some "a"%string /\
   [clip] !! 0%nat = Some clip /\
   curves clip !! 1%nat = Some curve) /\
  exists targets clip_targets target,
    create_object_actions mu [] [clip] = Ok targets /\
    targets !! 0%nat = Some clip_targets /\
    clip_targets !! 1%nat = Some target /\
    (path curve = EmptyString -> lookup_key target = "a"%string) /\
    (path curve <> EmptyString ->
       lookup_key target = "a" +:+ "/" +:+ path curve) /\
    target = match PyDict.get (lookup_key target) (object_paths mu) with
             | None => UnknownPath (lookup_key target)
             | Some node => Target (lookup_key target) node
             end.
Proof.
  intros mu curve clip. split.
  - split; [vm_compute; reflexivity | split; reflexivity].
  - apply (create_action_lookup_path mu [] "a" [clip] 0 1 clip curve);
      [vm_compute; reflexivity | reflexivity | reflexivity].
Defined.

(** ** copy_friction *)

(** C10. [copy_friction] assigns four attributes of the destination,
    [extremumValue] twice, each from the attribute of the same name of the
    source; every other attribute of the destination keeps its value, and
    so does [asymptoteValue], whatever the source has there. *)
Theorem copy_friction_frame {float : Type} (dst src : gmap string float)
    (slip value aslip stiff : float) :
  src !! "extremumSlip" = Some slip ->
  src !! "extremumValue" = Some value ->
  src !! "asymptoteSlip" = Some aslip ->
  src !! "stiffness" = Some stiff ->
  exists dst',
    copy_friction dst src = Ok dst' /\
    dst' = <["stiffness" := stiff]>
             (<["extremumValue" := value]>
                (<["asymptoteSlip" := aslip]>
                   (<["extremumValue" := value]>
                      (<["extremumSlip" := slip]> dst)))) /\
    dst' !! "extremumSlip" = Some slip /\
    dst' !! "extremumValue" = Some value /\
    dst' !! "asymptoteSlip" = Some aslip /\
    dst' !! "stiffness" = Some stiff /\
    (forall a, a ∉ friction_written -> dst' !! a = dst !! a) /\
    dst' !! "asymptoteValue" = dst !! "asymptoteValue".
Proof.
  intros Hslip Hvalue Haslip Hstiff.
  eexists. split.
  { unfold copy_friction, getattr, setattr.
    rewrite Hslip, Hvalue, Haslip, Hstiff. reflexivity. }
  split; [reflexivity|].
  split; [by simplify_map_eq|]. split; [by simplify_map_eq|].
  split; [by simplify_map_eq|]. split; [by simplify_map_eq|].
  split.
  - intros a Ha. unfold friction_written in Ha.
    repeat (apply not_elem_of_cons in Ha as [? Ha]).
    by rewrite !lookup_insert_ne.
  - by rewrite !lookup_insert_ne.
Qed.

Lemma copy_friction_frame_witness :
  let src : gmap string Z :=
    {[ "extremumSlip" := 1; "extremumValue" := 2; "asymptoteSlip" := 3;
       "asymptoteValue" := 4; "stiffness" := 5 ]} in
  let dst : gmap string Z := {[ "asymptoteValue" := 9 ]} in
  (src !! "extremumSlip" = Some 1 /\ src !! "extremumValue" = Some 2 /\
   src !! "asymptoteSlip" = Some 3 /\ src !! "stiffness" = Some 5) /\
  exists dst',
    copy_friction dst src = Ok dst' /\
    dst' = <["stiffness" := 5]>
             (<["extremumValue" := 2]>
                (<["asymptoteSlip" := 3]>
                   (<["extremumValue" := 2]>
                      (<["extremumSlip" := 1]> dst)))) /\
    dst' !! "extremumSlip" = Some 1 /\
    dst' !! "extremumValue" = Some 2 /\
    dst' !! "asymptoteSlip" = Some 3 /\
    dst' !! "stiffness" = Some 5 /\
    (forall a, a ∉ friction_written -> dst' !! a = dst !! a) /\
    dst' !! "asymptoteValue" = dst !! "asymptoteValue".
Proof.
  intros src dst. split.
  - repeat split; vm_compute; reflexivity.
  - apply (copy_friction_frame dst src 1 2 3 5); vm_compute; reflexivity.
Defined.

(** The wheel branch of [create_collider] copies the forward and the
    sideways friction curve with [copy_friction], each into its own
    property group. *)
Lemma create_collider_wheel_frictions {float : Type}
    (muproperties : MuProperties float) (col : MuColliderWheel float)
    (fwd side : gmap string float) :
  copy_friction (props_forwardFriction muproperties) (forwardFriction col)
  = Ok fwd ->
  copy_friction (props_sideFriction muproperties) (sidewaysFriction col)
  = Ok side ->
  create_collider_wheel muproperties col = Ok (MkProps float fwd side).
Proof.
  intros Hfwd Hside. unfold create_collider_wheel.
  by rewrite Hfwd, Hside.
Qed.

(** ** Worked examples *)

(** A 2 by 2, 24-bit file without bump flag and twelve payload bytes. *)
Example load_mbm_2x2_rgb :
  load_mbm (mbm_file 0x50534B03 2 2 0 24
              [Byte.x01; Byte.x02; Byte.x03; Byte.x04; Byte.x05; Byte.x06;
               Byte.x07; Byte.x08; Byte.x09; Byte.x0a; Byte.x0b; Byte.x0c])
  = Ok (2, 2, [1; 2; 3; 255; 4; 5; 6; 255; 7; 8; 9; 255; 10; 11; 12; 255]).
Proof. reflexivity. Qed.

(** The bump remap of a 3 by 3 buffer rewrites the middle pixel only. *)
Example convert_bump_3x3 :
  convert_bump (seqZ 0 36) 3 3
  = Ok ([0; 1; 2; 3; 4; 5; 6; 7; 8; 9; 10; 11; 12; 13; 14; 15]
          ++ [19; 18; 255; 255]
          ++ [20; 21; 22; 23; 24; 25; 26; 27; 28; 29; 30; 31; 32; 33; 34; 35]).
Proof. reflexivity. Qed.

(** A buffer that is too short for its sizes makes the remap raise. *)
Example convert_bump_short_buffer :
  convert_bump (seqZ 0 19) 3 3 = Raise IndexError.
Proof. reflexivity. Qed.

(** A file shorter than a header. *)
Example load_mbm_short_header :
  load_mbm [Byte.x03; Byte.x4b; Byte.x53; Byte.x50] = Raise StructError.
Proof. reflexivity. Qed.

(** A 24-bit payload that ends inside the last triple: the list shrinks. *)
Example load_mbm_short_rgb :
  load_mbm (mbm_file 0x50534B03 2 1 0 24
              [Byte.x01; Byte.x02; Byte.x03; Byte.x04])
  = Ok (2, 1, [1; 2; 3; 255; 4; 255]).
Proof. reflexivity. Qed.

(** The visits of a small tree, and its two tables. *)
Example preorder_visits_small :
  preorder_visits
    (MuObject "a" [MuObject "b" [MuObject "c" []]; MuObject "c" []])
  = [([], [], "a"); ([0], ["a"], "b"); ([0; 0], ["a"; "b"], "c");
     ([1], ["a"], "c")]%nat%string.
Proof. reflexivity. Qed.

Example create_object_paths_small :
  returns
    (create_object_paths
       (MkMu (MuObject "a" [MuObject "b" [MuObject "c" []]; MuObject "c" []])
             [("old", [7%nat])] [] ∅))
    (fun mu' =>
       objects mu' = [("a", []); ("b", [0]); ("c", [1])] /\
       object_paths mu'
       = [("a", []); ("a/b", [0]); ("a/b/c", [0; 0]); ("a/c", [1])])%nat%string.
Proof. vm_compute. split; reflexivity. Qed.

(** * Further properties *)

(** ** convert_bump on any buffer *)

Lemma bump_pairs_nil (width height : Z) :
  width <= 2 \/ height <= 2 ->
  (Py.range 1 (height - 1) ≫= fun y => (y,.) <$> Py.range 1 (width - 1)) = [].
Proof.
  intros Hthin. apply elem_of_nil_inv. intros [y x] Hel.
  apply elem_of_bump_pairs in Hel. unfold in_interior in Hel. lia.
Qed.

(** X1. An image at most two pixels wide or at most two pixels high has
    no interior: [convert_bump] returns its input, whatever the length of
    the buffer. *)
Theorem convert_bump_thin (pixels : list Z) (width height : Z) :
  width <= 2 \/ height <= 2 ->
  convert_bump pixels width height = Ok pixels.
Proof.
  intros Hthin. rewrite convert_bump_pairs, bump_pairs_nil by done. done.
Qed.

Lemma convert_bump_thin_witness :
  (2 <= 2 \/ 7 <= 2) /\ convert_bump [1; 2; 3] 2 7 = Ok [1; 2; 3].
Proof.
  split; [left; lia|]. apply (convert_bump_thin [1; 2; 3] 2 7). left; lia.
Defined.

(** One iteration on a pixel that does not lie inside [pixels]. *)
Lemma bump_pixel_outside (pixels outp : list Z) (width y x : Z) :
  0 <= y * width + x ->
  Z.of_nat (length pixels) < (y * width + x) * 4 + 4 ->
  bump_pixel pixels width outp y x = Raise IndexError.
Proof.
  intros Hq Hlen. unfold bump_pixel.
  set (p := Py.slice pixels ((y * width + x) * 4) ((y * width + x) * 4 + 4)).
  assert (Hp : (length p < 4)%nat).
  { unfold p, Py.slice, Py.clamp.
    replace ((y * width + x) * 4 <? 0) with false by lia.
    replace ((y * width + x) * 4 + 4 <? 0) with false by lia.
    rewrite length_take, length_drop. lia. }
  assert (Hget : Py.getitem p 3 = None).
  { unfold Py.getitem. change (3 <? 0) with false. cbv iota zeta.
    change (0 <=? 3) with true. cbn [andb].
    destruct (Z.ltb_spec 3 (Z.of_nat (length p))); [lia | done]. }
  by rewrite Hget.
Qed.

(** The loop over pixels with numbers that are not negative either raises
    IndexError or gives a list as long as the one it started from; in the
    second case every pixel of the loop lies inside [pixels]. *)
Lemma bump_loop_cases (pixels : list Z) (width : Z) (ps : list (Z * Z)) :
  forall outp : list Z,
    length outp = length pixels ->
    (forall p, p ∈ ps -> 0 <= p.1 * width + p.2) ->
    for_each (fun outp p => bump_pixel pixels width outp p.1 p.2) outp ps
    = Raise IndexError \/
    exists out,
      for_each (fun outp p => bump_pixel pixels width outp p.1 p.2) outp ps
      = Ok out /\
      length out = length pixels /\
      forall p, p ∈ ps ->
        (p.1 * width + p.2) * 4 + 4 <= Z.of_nat (length pixels).
Proof.
  induction ps as [|[y x] ps IH]; intros outp Hlen Hpos.
  - right. exists outp. split; [done|]. split; [done|].
    intros p Hp. by apply elem_of_nil in Hp.
  - assert (Hq : 0 <= y * width + x) by (apply (Hpos (y, x)); left).
    cbn [for_each fst snd].
    destruct (decide ((y * width + x) * 4 + 4 <= Z.of_nat (length pixels)))
      as [Hin|Hout].
    + destruct (bump_pixel_inside pixels outp width y x Hq Hin Hlen)
        as (a & b & _ & _ & ->).
      cbn [rbind].
      set (out1 := take _ outp ++ _ ++ drop _ outp).
      assert (Hlen1 : length out1 = length pixels).
      { unfold out1. rewrite (length_write _ _ _ 4); [done | done |].
        unfold channel. lia. }
      destruct (IH out1 Hlen1) as [Hraise | (out & Hrun & Hlen' & Hall)].
      { intros p Hp. apply Hpos. by right. }
      * by left.
      * right. exists out. split; [done|]. split; [done|].
        intros p [-> | Hp]%elem_of_cons; [done | by apply Hall].
    + left. rewrite bump_pixel_outside by lia. done.
Qed.

Lemma bump_pairs_nonneg (width height : Z) (p : Z * Z) :
  p ∈ (Py.range 1 (height - 1) ≫= fun y => (y,.) <$> Py.range 1 (width - 1)) ->
  0 <= p.1 * width + p.2.
Proof.
  destruct p as [y x]. intros [Hx Hy]%elem_of_bump_pairs. simpl. nia.
Qed.

(** X2. On every input [convert_bump] either raises IndexError or returns
    a list of the length of its input: no call changes the length, and no
    other exception leaves it. *)
Theorem convert_bump_length_or_raise (pixels : list Z) (width height : Z) :
  convert_bump pixels width height = Raise IndexError \/
  exists outp,
    convert_bump pixels width height = Ok outp /\
    length outp = length pixels.
Proof.
  rewrite convert_bump_pairs.
  destruct (bump_loop_cases pixels width
              (Py.range 1 (height - 1) ≫= fun y => (y,.) <$> Py.range 1 (width - 1))
              pixels eq_refl) as [Hraise | (out & Hrun & Hlen & _)].
  - intros p Hp. by eapply bump_pairs_nonneg.
  - by left.
  - right. by exists out.
Qed.

(** X3. For an image at least three pixels wide and high, [convert_bump]
    returns exactly when the buffer reaches the end of the last interior
    pixel, which is pixel number (height-1)*width - 2; on a shorter buffer
    it raises IndexError. *)
Theorem convert_bump_returns_iff (pixels : list Z) (width height : Z) :
  3 <= width -> 3 <= height ->
  ((exists outp, convert_bump pixels width height = Ok outp)
   <-> ((height - 1) * width - 1) * 4 <= Z.of_nat (length pixels)) /\
  (Z.of_nat (length pixels) < ((height - 1) * width - 1) * 4 ->
   convert_bump pixels width height = Raise IndexError).
Proof.
  intros Hw Hh. rewrite convert_bump_pairs.
  set (ps := Py.range 1 (height - 1) ≫= fun y => (y,.) <$> Py.range 1 (width - 1)).
  assert (Hlast : (height - 2, width - 2) ∈ ps).
  { apply elem_of_bump_pairs. unfold in_interior. lia. }
  assert (Hiff : (exists outp,
              for_each (fun outp p => bump_pixel pixels width outp p.1 p.2)
                pixels ps = Ok outp)
            <-> ((height - 1) * width - 1) * 4 <= Z.of_nat (length pixels)).
  { split.
    - intros (outp & Hrun).
      destruct (bump_loop_cases pixels width ps pixels eq_refl)
        as [Hraise | (out & _ & _ & Hall)].
      + intros p Hp. by eapply bump_pairs_nonneg.
      + congruence.
      + specialize (Hall _ Hlast). simpl in Hall. lia.
    - intros Hlen.
      destruct (bump_loop pixels width ps pixels eq_refl) as (out & Hrun & _).
      + intros [y x] [Hx Hy]%elem_of_bump_pairs. simpl. nia.
      + by exists out. }
  split; [exact Hiff|].
  intros Hshort.
  destruct (bump_loop_cases pixels width ps pixels eq_refl)
    as [Hraise | (out & Hrun & _)].
  - intros p Hp. by eapply bump_pairs_nonneg.
  - done.
  - assert (exists outp,
              for_each (fun outp p => bump_pixel pixels width outp p.1 p.2)
                pixels ps = Ok outp) as Hex by (by exists out).
    apply Hiff in Hex. lia.
Qed.

Lemma convert_bump_returns_iff_witness :
  (3 <= 3 /\ 3 <= 4) /\
  ((exists outp, convert_bump (seqZ 0 32) 3 4 = Ok outp)
   <-> ((4 - 1) * 3 - 1) * 4 <= Z.of_nat (length (seqZ 0 32))) /\
  (Z.of_nat (length (seqZ 0 32)) < ((4 - 1) * 3 - 1) * 4 ->
   convert_bump (seqZ 0 32) 3 4 = Raise IndexError).
Proof.
  split; [lia|]. apply (convert_bump_returns_iff (seqZ 0 32) 3 4); lia.
Defined.

(** ** load_mbm on any file *)

(** What a normal return of [load_mbm] went through. *)
Lemma load_mbm_Ok_inv (f : file) (width height : Z) (px : list Z) :
  load_mbm f = Ok (width, height, px) ->
  exists bump bpp pixels,
    header_fields f = Some (mbm_magic, width, height, bump, bpp) /\
    load_mbm_pixels (payload f) width height bpp = Ok pixels /\
    (if negb (bump =? 0) then convert_bump pixels width height else Ok pixels)
    = Ok px.
Proof.
  intros Hrun.
  destruct (header_fields f) as [[[[[magic w] h] bump] bpp]|] eqn:Hhdr.
  - rewrite (load_mbm_header _ _ _ _ _ _ Hhdr) in Hrun.
    destruct (Z.eqb_spec magic mbm_magic) as [->|]; [|done].
    cbn [negb] in Hrun.
    destruct (load_mbm_pixels (payload f) w h bpp) as [pixels|] eqn:Hpix;
      [|done].
    cbn [rbind] in Hrun.
    destruct (if negb (bump =? 0) then convert_bump pixels w h else Ok pixels)
      as [out|] eqn:Hbump; [|done].
    cbn [rbind] in Hrun. injection Hrun as -> -> ->.
    exists bump, bpp, pixels. by rewrite Hbump.
  - exfalso. unfold header_fields in Hhdr.
    unfold load_mbm, read in Hrun.
    change (20 <? -1) with false in Hrun. change (20 =? -1) with false in Hrun.
    change (Z.to_nat 20) with 20%nat in Hrun. cbn [rbind] in Hrun.
    by destruct (unpack_5i (take 20 f)).
Qed.



(** X5. The bump flag only adds a last step: a file with the flag set
    decodes to what [convert_bump] makes of the result of the same file
    with the flag cleared, and fails where either of the two fails. *)
Theorem load_mbm_bump_after (f f0 : file) (magic width height bump bpp : Z) :
  header_fields f = Some (magic, width, height, bump, bpp) ->
  header_fields f0 = Some (magic, width, height, 0, bpp) ->
  payload f0 = payload f ->
  bump <> 0 ->
  load_mbm f
  = rbind (load_mbm f0) (fun r =>
      rbind (convert_bump r.2 r.1.1 r.1.2) (fun outp =>
        Ok (r.1.1, r.1.2, outp))).
Proof.
  intros Hhdr Hhdr0 Hpay Hbump.
  rewrite (load_mbm_header _ _ _ _ _ _ Hhdr),
          (load_mbm_header _ _ _ _ _ _ Hhdr0), Hpay.
  destruct (negb (magic =? mbm_magic)); [done|].
  destruct (load_mbm_pixels (payload f) width height bpp) as [pixels|];
    [|done].
  cbn [rbind]. change (negb (0 =? 0)) with false. cbv iota. cbn [rbind fst snd].
  by destruct (Z.eqb_spec bump 0).
Qed.

Lemma load_mbm_bump_after_witness :
  let data := replicate 36 Byte.x07 in
  let f := mbm_file 0x50534B03 3 3 1 32 data in
  let f0 := mbm_file 0x50534B03 3 3 0 32 data in
  (header_fields f = Some (0x50534B03, 3, 3, 1, 32) /\
   header_fields f0 = Some (0x50534B03, 3, 3, 0, 32) /\
   payload f0 = payload f /\ 1 <> 0) /\
  load_mbm f
  = rbind (load_mbm f0) (fun r =>
      rbind (convert_bump r.2 r.1.1 r.1.2) (fun outp =>
        Ok (r.1.1, r.1.2, outp))).
Proof.
  intros data f f0. split.
  - split; [reflexivity|]. split; [reflexivity|]. split; [reflexivity | lia].
  - apply (load_mbm_bump_after f f0 0x50534B03 3 3 1 32);
      [reflexivity | reflexivity | reflexivity | lia].
Defined.

(** The bytes of a file as integers. *)
Lemma byte_to_Z_range (b : byte) : 0 <= byte_to_Z b <= 255.
Proof.
  unfold byte_to_Z. pose proof (Byte.to_N_bounded b). lia.
Qed.

Lemma slice_Forall {A} (P : A -> Prop) (l : list A) (i j : Z) :
  Forall P l -> Forall P (Py.slice l i j).
Proof. intros Hl. unfold Py.slice. by apply Forall_take, Forall_drop. Qed.

Lemma slice_assign_Forall {A} (P : A -> Prop) (l v : list A) (i j : Z) :
  Forall P l -> Forall P v -> Forall P (Py.slice_assign l i j v).
Proof.
  intros Hl Hv. unfold Py.slice_assign.
  apply Forall_app. split; [by apply Forall_take|].
  apply Forall_app. split; [done | by apply Forall_drop].
Qed.

Lemma getitem_Forall {A} (P : A -> Prop) (l : list A) (i : Z) (a : A) :
  Forall P l -> Py.getitem l i = Some a -> P a.
Proof.
  intros Hl. unfold Py.getitem.
  destruct (_ && _); [|done]. intros Ha.
  by eapply (proj1 (Forall_lookup P l)).
Qed.

Lemma repeat_Forall {A} (P : A -> Prop) (l : list A) (n : Z) :
  Forall P l -> Forall P (Py.repeat l n).
Proof.
  intros Hl. unfold Py.repeat.
  induction (Z.to_nat n) as [|k IH]; simpl; [constructor|].
  by apply Forall_app.
Qed.

(** A property of the state that every iteration keeps holds at the end
    of a loop that returns. *)
Lemma for_each_invariant {A S} (I : S -> Prop) (body : S -> A -> result S)
    (l : list A) :
  (forall s a s', I s -> body s a = Ok s' -> I s') ->
  forall s s', I s -> for_each body s l = Ok s' -> I s'.
Proof.
  intros Hbody. induction l as [|a l IH]; intros s s' Hs Hrun; simpl in Hrun.
  - by injection Hrun as <-.
  - destruct (body s a) as [s1|] eqn:Hstep; [|done].
    cbn [rbind] in Hrun. eapply IH; [|done]. by eapply Hbody.
Qed.

Lemma convert_bump_Forall (P : Z -> Prop) (pixels outp : list Z)
    (width height : Z) :
  P 255 -> Forall P pixels ->
  convert_bump pixels width height = Ok outp -> Forall P outp.
Proof.
  intros H255 Hpix Hrun. rewrite convert_bump_pairs in Hrun.
  eapply (for_each_invariant (Forall P)); [|exact Hpix|exact Hrun].
  intros s [y x] s' Hs Hstep. unfold bump_pixel in Hstep. cbn [fst snd] in Hstep.
  set (p := Py.slice pixels _ _) in Hstep.
  assert (Hp : Forall P p) by (by apply slice_Forall).
  destruct (Py.getitem p 3) as [a|] eqn:Ha; [|done].
  destruct (Py.getitem p 2) as [b|] eqn:Hb; [|done].
  cbn [of_option rbind] in Hstep. injection Hstep as <-.
  apply slice_assign_Forall; [done|].
  repeat constructor; try done.
  - by eapply getitem_Forall.
  - by eapply getitem_Forall.
Qed.

Lemma load_mbm_pixels_Forall (data : list byte) (width height bpp : Z)
    (pixels : list Z) :
  load_mbm_pixels data width height bpp = Ok pixels ->
  Forall (fun v => 0 <= v <= 255) pixels.
Proof.
  unfold load_mbm_pixels.
  destruct (bpp =? 32).
  - destruct (read data (width * height * 4)) as [[bytes rest]|]; [|done].
    cbn [rbind]. intros [= <-].
    apply Forall_fmap, Forall_forall. intros b _. apply byte_to_Z_range.
  - destruct (bpp =? 24); [|done].
    destruct (for_each read_rgb _ _) as [[rest out]|] eqn:Hrun; [|done].
    cbn [rbind]. intros [= <-].
    apply (for_each_invariant
             (fun st : list byte * list Z => Forall (fun v => 0 <= v <= 255) st.2)
             read_rgb _) in Hrun; [done| |].
    + intros [file0 px] i [file1 px1] Hpx Hstep. simpl in *.
      unfold read_rgb, read in Hstep.
      change (3 <? -1) with false in Hstep. change (3 =? -1) with false in Hstep.
      cbn [rbind] in Hstep. injection Hstep as <- <-.
      apply slice_assign_Forall; [done|].
      apply Forall_fmap, Forall_forall. intros b _. apply byte_to_Z_range.
    + simpl. do 2 apply repeat_Forall. repeat constructor; lia.
Qed.

(** X6. Whatever the file, every element of a buffer that [load_mbm]
    returns is between 0 and 255. *)
Theorem load_mbm_byte_range (f : file) (width height : Z) (px : list Z) :
  load_mbm f = Ok (width, height, px) ->
  Forall (fun v => 0 <= v <= 255) px.
Proof.
  intros (bump & bpp & pixels & _ & Hpix & Hbump)%load_mbm_Ok_inv.
  apply load_mbm_pixels_Forall in Hpix.
  destruct (negb (bump =? 0)).
  - eapply (convert_bump_Forall _ pixels); [lia | done | done].
  - by injection Hbump as <-.
Qed.

Lemma load_mbm_byte_range_witness :
  let f := mbm_file 0x50534B03 1 2 1 24 [Byte.xff; Byte.x00; Byte.x80] in
  load_mbm f = Ok (1, 2, [255; 0; 128; 255; 255]) /\
  Forall (fun v => 0 <= v <= 255) [255; 0; 128; 255; 255].
Proof.
  intros f. split; [reflexivity|].
  apply (load_mbm_byte_range f 1 2). reflexivity.
Defined.

(** X7. A file of fewer than 20 bytes has no header: [unpack] raises. *)
Theorem load_mbm_short_file (f : file) :
  (length f < 20)%nat -> load_mbm f = Raise StructError.
Proof.
  intros Hlen. unfold load_mbm, read.
  change (20 <? -1) with false. change (20 =? -1) with false.
  change (Z.to_nat 20) with 20%nat. cbn [rbind].
  rewrite take_ge by lia.
  do 20 (destruct f as [|? f]; [reflexivity|]).
  simpl in Hlen. lia.
Qed.

Lemma load_mbm_short_file_witness :
  (length (take 19 (mbm_file 0x50534B03 1 1 0 32 [])) < 20)%nat /\
  load_mbm (take 19 (mbm_file 0x50534B03 1 1 0 32 [])) = Raise StructError.
Proof.
  split; [vm_compute; lia|].
  apply (load_mbm_short_file (take 19 (mbm_file 0x50534B03 1 1 0 32 []))).
  vm_compute; lia.
Defined.





Lemma unpack_5i_length (l : list byte) (h : Z * Z * Z * Z * Z) :
  unpack_5i l = Ok h -> length l = 20%nat.
Proof.
  intros Hl. do 20 (destruct l as [|? l]; [done|]). by destruct l.
Qed.

Lemma header_fields_length (f : file) (h : Z * Z * Z * Z * Z) :
  header_fields f = Some h -> (20 <= length f)%nat.
Proof.
  unfold header_fields. intros Hh.
  destruct (unpack_5i (take 20 f)) as [h'|] eqn:Hu; [|done].
  apply unpack_5i_length in Hu. rewrite length_take in Hu. lia.
Qed.

(** Every index of a buffer is a channel of a pixel. *)
Lemma channel_of_index (k : nat) :
  channel (Z.of_nat (k / 4)) (Z.of_nat (k mod 4)) = k /\
  0 <= Z.of_nat (k mod 4) < 4.
Proof.
  pose proof (Nat.div_mod_eq k 4). pose proof (Nat.mod_upper_bound k 4).
  unfold channel. lia.
Qed.

(** The 24-bit branch looks at the first width*height*3 bytes only. *)
Lemma load_mbm_pixels_24_app (data extra : list byte) (width height : Z) :
  0 <= width -> 0 <= height ->
  width * height * 3 <= Z.of_nat (length data) ->
  load_mbm_pixels (data ++ extra) width height 24
  = load_mbm_pixels data width height 24.
Proof.
  intros Hw Hh Hlen.
  destruct (load_mbm_pixels_24 data width height Hw Hh Hlen)
    as (px & _ & -> & Hlen1 & Hpx).
  destruct (load_mbm_pixels_24 (data ++ extra) width height Hw Hh)
    as (px' & _ & -> & Hlen2 & Hpx').
  { rewrite length_app. lia. }
  f_equal.
  apply (list_eq_same_length _ _ (length px)); [done | lia |].
  intros k x y Hk Hx Hy.
  destruct (channel_of_index k) as [Hch Hc].
  assert (Hq : 0 <= Z.of_nat (k / 4) < width * height).
  { pose proof (Nat.div_mod_eq k 4). lia. }
  rewrite <- Hch in Hx, Hy.
  rewrite Hpx' in Hx by done. rewrite Hpx in Hy by done.
  case_decide as Hc3; [|congruence].
  rewrite lookup_app_l in Hx by nia. congruence.
Qed.

(** X8. Bytes that follow the pixel data are ignored: a file that holds
    its width*height pixels decodes to the same result with anything
    appended to it. *)
Theorem load_mbm_trailing_bytes (f extra : file)
    (width height bump bpp : Z) :
  header_fields f = Some (0x50534B03, width, height, bump, bpp) ->
  bpp = 24 \/ bpp = 32 ->
  0 <= width -> 0 <= height ->
  width * height * (bpp / 8) <= Z.of_nat (length (payload f)) ->
  load_mbm (f ++ extra) = load_mbm f.
Proof.
  intros Hhdr Hbpp Hw Hh Hlen.
  pose proof (header_fields_length f _ Hhdr) as H20.
  assert (Hhdr' : header_fields (f ++ extra)
                  = Some (0x50534B03, width, height, bump, bpp)).
  { unfold header_fields in *. by rewrite take_app_le. }
  rewrite (load_mbm_header _ _ _ _ _ _ Hhdr),
          (load_mbm_header _ _ _ _ _ _ Hhdr').
  assert (Hpix : load_mbm_pixels (payload (f ++ extra)) width height bpp
                 = load_mbm_pixels (payload f) width height bpp).
  { unfold payload in *. rewrite drop_app_le by done.
    destruct Hbpp as [-> | ->].
    - change (24 / 8) with 3 in Hlen. by apply load_mbm_pixels_24_app.
    - change (32 / 8) with 4 in Hlen.
      unfold load_mbm_pixels, read. change (32 =? 32) with true. cbv iota.
      replace (width * height * 4 <? -1) with false by lia.
      replace (width * height * 4 =? -1) with false by lia.
      cbn [rbind]. rewrite take_app_le by lia. done. }
  by rewrite Hpix.
Qed.

Lemma load_mbm_trailing_bytes_witness :
  let f := mbm_file 0x50534B03 1 1 0 24 [Byte.x01; Byte.x02; Byte.x03] in
  (header_fields f = Some (0x50534B03, 1, 1, 0, 24) /\
   (24 = 24 \/ 24 = 32) /\ 0 <= 1 /\ 0 <= 1 /\
   1 * 1 * (24 / 8) <= Z.of_nat (length (payload f))) /\
  load_mbm (f ++ [Byte.xff; Byte.xfe]) = load_mbm f.
Proof.
  intros f. split.
  - split; [reflexivity|]. split; [left; reflexivity|].
    split; [lia|]. split; [lia | vm_compute; discriminate].
  - apply (load_mbm_trailing_bytes f [Byte.xff; Byte.xfe] 1 1 0 24);
      [reflexivity | left; reflexivity | lia | lia | vm_compute; discriminate].
Defined.

(** ** The row flip of load_image *)

Lemma row_of_index (r n c y : Z) :
  0 <= c < n -> y * n <= r * n + c < y * n + n -> r = y.
Proof. intros Hc Hk. nia. Qed.

Lemma half_bounds (h : Z) :
  0 <= h -> 2 * Z.quot h 2 <= h < 2 * Z.quot h 2 + 2.
Proof.
  intros Hh. rewrite Z.quot_div_nonneg by lia.
  pose proof (Z.div_mod h 2). pose proof (Z.mod_pos_bound h 2). lia.
Qed.

(** One iteration, on a buffer of [h] rows of [n] elements and a row [y]
    of the upper half: the rows [y] and [h - 1 - y] change places. *)
Lemma flip_step_elem {A} (pixels : list A) (n h y : Z) :
  0 <= n -> 0 <= y -> 2 * y + 1 < h ->
  Z.of_nat (length pixels) = h * n ->
  length (flip_step n h pixels y) = length pixels /\
  forall r c, 0 <= r < h -> 0 <= c < n ->
    flip_step n h pixels y !! row_elem n r c
    = pixels !! row_elem n (if decide (r = y \/ r = h - 1 - y)
                            then h - 1 - r else r) c.
Proof.
  intros Hn Hy Hyh Hlen. unfold flip_step.
  assert (H1 : y * n + n <= Z.of_nat (length pixels)) by nia.
  assert (H2 : (h - 1 - y) * n + n <= Z.of_nat (length pixels)) by nia.
  assert (H0 : 0 <= y * n) by nia.
  assert (H12 : y * n + n <= (h - 1 - y) * n) by nia.
  rewrite (slice_inside pixels (y * n) n) by lia.
  rewrite (slice_inside pixels ((h - 1 - y) * n) n) by lia.
  rewrite (slice_assign_inside pixels _ (y * n) n) by lia.
  set (t := take (Z.to_nat n) (drop (Z.to_nat (y * n)) pixels)).
  set (u := take (Z.to_nat n) (drop (Z.to_nat ((h - 1 - y) * n)) pixels)).
  set (p1 := take (Z.to_nat (y * n)) pixels ++ u
               ++ drop (Z.to_nat (y * n) + Z.to_nat n) pixels).
  assert (Ht : length t = Z.to_nat n)
    by (unfold t; rewrite length_take, length_drop; lia).
  assert (Hu : length u = Z.to_nat n)
    by (unfold u; rewrite length_take, length_drop; lia).
  assert (Hp1 : length p1 = length pixels)
    by (unfold p1; rewrite (length_write _ _ _ (Z.to_nat n)); [done|done|lia]).
  rewrite (slice_assign_inside p1 _ ((h - 1 - y) * n) n) by lia.
  split.
  { rewrite (length_write _ _ _ (Z.to_nat n)); [done | done | lia]. }
  intros r c Hr Hc. unfold row_elem.
  rewrite (lookup_write p1 t _ (Z.to_nat n)); [|done|lia].
  case_decide as Hk2.
  - assert (r = h - 1 - y) as ->
      by (apply (row_of_index _ n c); [done | lia]).
    rewrite decide_True by (by right).
    unfold t. rewrite lookup_take_lt, lookup_drop by lia.
    f_equal. lia.
  - unfold p1. rewrite (lookup_write pixels u _ (Z.to_nat n)); [|done|lia].
    case_decide as Hk1.
    + assert (r = y) as -> by (apply (row_of_index _ n c); [done | lia]).
      rewrite decide_True by (by left).
      unfold u. rewrite lookup_take_lt, lookup_drop by lia.
      f_equal. lia.
    + rewrite decide_False; [done|].
      intros [-> | ->]; lia.
Qed.

(** The loop over distinct rows of the upper half: the rows of the list
    and their mirror images have changed places with each other, the other
    rows are where they were. *)
Lemma flip_loop {A} (n h : Z) (ys : list Z) :
  0 <= n -> NoDup ys -> (forall y, y ∈ ys -> 0 <= y /\ 2 * y + 1 < h) ->
  forall pixels : list A,
    Z.of_nat (length pixels) = h * n ->
    length (foldl (flip_step n h) pixels ys) = length pixels /\
    forall r c, 0 <= r < h -> 0 <= c < n ->
      foldl (flip_step n h) pixels ys !! row_elem n r c
      = pixels !! row_elem n (if decide (r ∈ ys \/ h - 1 - r ∈ ys)
                              then h - 1 - r else r) c.
Proof.
  intros Hn Hnodup Hys.
  induction ys as [|y ys IH]; intros pixels Hlen.
  - split; [done|]. intros r c Hr Hc. cbn [foldl].
    case_decide as H; [|done].
    destruct H as [H|H]; by apply elem_of_nil in H.
  - apply NoDup_cons in Hnodup as [Hy Hnodup].
    destruct (Hys y) as [Hy0 Hyh]; [left|].
    destruct (flip_step_elem pixels n h y Hn Hy0 Hyh Hlen) as [Hlen1 Hstep].
    destruct (IH Hnodup) with (pixels := flip_step n h pixels y)
      as [Hlen2 Hrest].
    { intros y' Hy'. apply Hys. by right. }
    { lia. }
    split; [cbn [foldl]; lia|].
    intros r c Hr Hc. cbn [foldl]. rewrite Hrest by done.
    assert (Hupper : forall y', y' ∈ ys -> 0 <= y' /\ 2 * y' + 1 < h)
      by (intros y' Hy'; apply Hys; by right).
    case_decide as Hin.
    + rewrite Hstep by lia.
      rewrite decide_False.
      * rewrite decide_True; [done|].
        destruct Hin as [Hin|Hin]; [left | right]; by right.
      * intros [Heq|Heq]; destruct Hin as [Hin|Hin].
        -- pose proof (Hupper _ Hin). lia.
        -- rewrite Heq in Hin. done.
        -- assert (r = y) as -> by lia. done.
        -- pose proof (Hupper _ Hin). lia.
    + rewrite Hstep by lia.
      case_decide as Hy'.
      * rewrite decide_True; [done|].
        destruct Hy' as [-> | ->]; [left; left|right].
        replace (h - 1 - (h - 1 - y)) with y by lia. left.
      * rewrite decide_False; [done|].
        intros [[-> | H]%elem_of_cons | [Heq | H]%elem_of_cons].
        -- apply Hy'. by left.
        -- apply Hin. by left.
        -- apply Hy'. right. lia.
        -- apply Hin. by right.
Qed.

(** X10. On a buffer of [height] rows of [width] pixels the flip of
    [load_image] keeps the length and puts in every row [y] what the input
    had in row [height - 1 - y]; the middle row of an odd height stays. *)
Theorem flip_rows_mirror {A} (pixels : list A) (width height : Z) :
  0 <= width -> 0 <= height ->
  Z.of_nat (length pixels) = height * (width * 4) ->
  length (flip_rows pixels width height) = length pixels /\
  forall y c, 0 <= y < height -> 0 <= c < width * 4 ->
    flip_rows pixels width height !! row_elem (width * 4) y c
    = pixels !! row_elem (width * 4) (height - 1 - y) c.
Proof.
  intros Hw Hh Hlen. unfold flip_rows.
  pose proof (half_bounds height Hh) as Hhalf.
  assert (Hloop := flip_loop (A := A) (width * 4) height
                      (Py.range 0 (Z.quot height 2))).
  destruct Hloop with (pixels := pixels) as [Hlen' Hflip].
  { lia. }
  { apply NoDup_seqZ. }
  { intros y Hy%elem_of_range. lia. }
  { done. }
  split; [done|].
  intros y c Hy Hc. rewrite Hflip by done.
  case_decide as Hin; [done|].
  assert (y = height - 1 - y) as <-; [|done].
  destruct (decide (y < Z.quot height 2)) as [Hlow|Hhigh].
  - exfalso. apply Hin. left. apply elem_of_range. lia.
  - destruct (decide (height - 1 - y < Z.quot height 2)) as [Hlow'|Hhigh'].
    + exfalso. apply Hin. right. apply elem_of_range. lia.
    + lia.
Qed.

Lemma flip_rows_mirror_witness :
  (0 <= 1 /\ 0 <= 3 /\ Z.of_nat (length (seqZ 0 12)) = 3 * (1 * 4)) /\
  length (flip_rows (seqZ 0 12) 1 3) = length (seqZ 0 12) /\
  forall y c, 0 <= y < 3 -> 0 <= c < 1 * 4 ->
    flip_rows (seqZ 0 12) 1 3 !! row_elem (1 * 4) y c
    = seqZ 0 12 !! row_elem (1 * 4) (3 - 1 - y) c.
Proof.
  split; [split; [lia | split; [lia | reflexivity]] |].
  apply (flip_rows_mirror (seqZ 0 12) 1 3); [lia | lia | reflexivity].
Defined.

(** Every index of a buffer of rows of [n] elements is an element of a
    row. *)
Lemma row_elem_of_index (n h : Z) (k : nat) :
  0 < n -> Z.of_nat k < h * n ->
  exists r c, 0 <= r < h /\ 0 <= c < n /\ row_elem n r c = k.
Proof.
  intros Hn Hk.
  exists (Z.of_nat k / n), (Z.of_nat k mod n).
  pose proof (Z.div_mod (Z.of_nat k) n). pose proof (Z.mod_pos_bound (Z.of_nat k) n).
  assert (0 <= Z.of_nat k / n) by (apply Z.div_pos; lia).
  assert (Z.of_nat k / n < h) by (apply Z.div_lt_upper_bound; lia).
  unfold row_elem. split; [lia|]. split; [lia|]. lia.
Qed.

(** X11. Flipping twice gives the image back. *)
Theorem flip_rows_involutive {A} (pixels : list A) (width height : Z) :
  0 <= width -> 0 <= height ->
  Z.of_nat (length pixels) = height * (width * 4) ->
  flip_rows (flip_rows pixels width height) width height = pixels.
Proof.
  intros Hw Hh Hlen.
  destruct (flip_rows_mirror pixels width height Hw Hh Hlen) as [Hlen1 Hflip1].
  destruct (flip_rows_mirror (flip_rows pixels width height) width height
              Hw Hh) as [Hlen2 Hflip2]; [lia|].
  apply list_eq. intros k.
  destruct (decide (k < length pixels)%nat) as [Hk|Hk].
  - destruct (row_elem_of_index (width * 4) height k) as (r & c & Hr & Hc & <-);
      [nia | lia |].
    rewrite Hflip2, Hflip1 by lia.
    by replace (height - 1 - (height - 1 - r)) with r by lia.
  - rewrite !lookup_ge_None_2 by lia. done.
Qed.

Lemma flip_rows_involutive_witness :
  (0 <= 2 /\ 0 <= 2 /\ Z.of_nat (length (seqZ 0 16)) = 2 * (2 * 4)) /\
  flip_rows (flip_rows (seqZ 0 16) 2 2) 2 2 = seqZ 0 16.
Proof.
  split; [split; [lia | split; [lia | reflexivity]] |].
  apply (flip_rows_involutive (seqZ 0 16) 2 2); [lia | lia | reflexivity].
Defined.

Example flip_rows_3_rows :
  flip_rows [1; 1; 1; 1; 2; 2; 2; 2; 3; 3; 3; 3] 1 3
  = [3; 3; 3; 3; 2; 2; 2; 2; 1; 1; 1; 1].
Proof. reflexivity. Qed.

(** ** property_index *)

Lemma property_index_from_spec {item} (item_name : item -> string)
    (properties : list item) (prop : string) :
  forall i0 : nat,
    match property_index_from item_name i0 properties prop with
    | Some i =>
        (i0 <= i)%nat /\
        (exists p, properties !! (i - i0)%nat = Some p /\ item_name p = prop) /\
        forall j p, (j < i - i0)%nat -> properties !! j = Some p ->
                    item_name p <> prop
    | None => forall p, p ∈ properties -> item_name p <> prop
    end.
Proof.
  induction properties as [|p0 properties IH]; intros i0; simpl.
  - intros p Hp. by apply elem_of_nil in Hp.
  - case_bool_decide as Hname.
    + split; [lia|]. rewrite Nat.sub_diag. split; [by exists p0|].
      intros j p Hj. lia.
    + specialize (IH (S i0)).
      destruct (property_index_from item_name (S i0) properties prop) as [i|].
      * destruct IH as (Hi & (p & Hp & Hpn) & Hbefore).
        split; [lia|]. split.
        -- exists p. split; [|done].
           replace (i - i0)%nat with (S (i - S i0)) by lia. done.
        -- intros [|j] q Hj Hq; simpl in Hq.
           ++ by injection Hq as <-.
           ++ apply (Hbefore j); [lia | done].
      * intros p [-> | Hp]%elem_of_cons; [done | by apply IH].
Qed.

(** X12. [property_index] returns the index of the first item that bears
    the name, and None exactly when no item bears it. *)
Theorem property_index_first {item} (item_name : item -> string)
    (properties : list item) (prop : string) :
  match property_index item_name properties prop with
  | Some i =>
      (exists p, properties !! i = Some p /\ item_name p = prop) /\
      forall j p, (j < i)%nat -> properties !! j = Some p ->
                  item_name p <> prop
  | None => forall p, p ∈ properties -> item_name p <> prop
  end.
Proof.
  unfold property_index.
  pose proof (property_index_from_spec item_name properties prop 0) as H.
  destruct (property_index_from item_name 0 properties prop) as [i|]; [|done].
  rewrite Nat.sub_0_r in H. by destruct H as (_ & ? & ?).
Qed.

(** ** copy_spring *)

(** X13. [copy_spring] assigns the three attributes [spring], [damper]
    and [targetPosition] of the destination from the source and leaves
    every other attribute of the destination as it was. *)
Theorem copy_spring_frame {float : Type} (dst src : gmap string float)
    (spring damper target : float) :
  src !! "spring" = Some spring ->
  src !! "damper" = Some damper ->
  src !! "targetPosition" = Some target ->
  exists dst',
    copy_spring dst src = Ok dst' /\
    dst' !! "spring" = Some spring /\
    dst' !! "damper" = Some damper /\
    dst' !! "targetPosition" = Some target /\
    forall a, a ∉ ["spring"; "damper"; "targetPosition"] ->
              dst' !! a = dst !! a.
Proof.
  intros Hspring Hdamper Htarget.
  eexists. split.
  { unfold copy_spring, getattr, setattr.
    rewrite Hspring, Hdamper, Htarget. reflexivity. }
  split; [by simplify_map_eq|]. split; [by simplify_map_eq|].
  split; [by simplify_map_eq|].
  intros a Ha. repeat (apply not_elem_of_cons in Ha as [? Ha]).
  by rewrite !lookup_insert_ne.
Qed.

Lemma copy_spring_frame_witness :
  let src : gmap string Z :=
    {[ "spring" := 1; "damper" := 2; "targetPosition" := 3 ]} in
  let dst : gmap string Z := {[ "spring" := 7; "mass" := 9 ]} in
  (src !! "spring" = Some 1 /\ src !! "damper" = Some 2 /\
   src !! "targetPosition" = Some 3) /\
  exists dst',
    copy_spring dst src = Ok dst' /\
    dst' !! "spring" = Some 1 /\
    dst' !! "damper" = Some 2 /\
    dst' !! "targetPosition" = Some 3 /\
    forall a, a ∉ ["spring"; "damper"; "targetPosition"] ->
              dst' !! a = dst !! a.
Proof.
  intros src dst. split.
  - repeat split; vm_compute; reflexivity.
  - apply (copy_spring_frame dst src 1 2 3); vm_compute; reflexivity.
Defined.

(** ** The candidates of create_textures *)


(** ** The path indexer, further *)

(** X15. Each recursive call of [create_object_paths] returns normally and
    gives back the list [parents] as it received it: every append is
    matched by one pop, and no pop finds the list empty. *)
Theorem create_object_paths_rec_balanced (mu : Mu) (r : ref) (node : MuObj)
    (parents : list string) :
  exists mu', create_object_paths_rec mu r node parents = Ok (mu', parents).
Proof. eexists. apply create_object_paths_rec_visits. Qed.

Lemma Mu_ext (a b : Mu) :
  obj a = obj b -> objects a = objects b ->
  object_paths a = object_paths b -> node_path a = node_path b -> a = b.
Proof. destruct a, b. simpl. by intros -> -> -> ->. Qed.

(** The visits leave the [path] of the nodes they do not visit. *)
Lemma record_visits_node_path_frame (vs : list visit) (r : ref) :
  r ∉ visit_ref <$> vs ->
  forall mu : Mu,
    node_path (foldl (record_visit [] []) mu vs) !! r = node_path mu !! r.
Proof.
  induction vs as [|v vs IH]; intros Hr mu; simpl; [done|].
  rewrite fmap_cons in Hr. apply not_elem_of_cons in Hr as [Hne Hr].
  rewrite IH by done. unfold record_visit. simpl.
  by rewrite lookup_insert_ne.
Qed.

Lemma visit_ref_node_at (root : MuObj) (r : ref) :
  r ∈ visit_ref <$> preorder_visits root <-> is_Some (node_at root r).
Proof.
  split.
  - intros ([[r' anc] name] & -> & Hv)%list_elem_of_fmap.
    destruct (visited_node_at r' root anc name Hv) as (n & Hn & _).
    by exists n.
  - intros [n Hn].
    destruct (node_at_visited r root n Hn) as (anc & _ & Hv).
    apply list_elem_of_fmap. by exists (r, anc, transform_name n).
Qed.

(** X16. The pass is idempotent: run on its own result, it returns that
    result. *)
Theorem create_object_paths_idempotent (mu mu' : Mu) :
  create_object_paths mu = Ok mu' -> create_object_paths mu' = Ok mu'.
Proof.
  intros Hrun.
  assert (Hobj : obj mu' = obj mu).
  { rewrite create_object_paths_visits in Hrun. injection Hrun as <-.
    by rewrite record_visits_obj. }
  rewrite create_object_paths_visits, Hobj. f_equal.
  pose proof Hrun as Hrun'.
  rewrite create_object_paths_visits in Hrun'. injection Hrun' as Hmu'.
  assert (Hobjects : objects mu' = PyDict.set_all
            ((fun v => (visit_name v, visit_ref v))
               <$> preorder_visits (obj mu)) [])
    by (rewrite <- Hmu'; apply record_visits_objects).
  assert (Hpaths : object_paths mu' = PyDict.set_all
            ((fun v => (visit_path v, visit_ref v))
               <$> preorder_visits (obj mu)) [])
    by (rewrite <- Hmu'; apply record_visits_object_paths).
  apply Mu_ext.
  - by rewrite record_visits_obj.
  - by rewrite record_visits_objects, Hobjects.
  - by rewrite record_visits_object_paths, Hpaths.
  - apply map_eq. intros r.
    destruct (decide (r ∈ visit_ref <$> preorder_visits (obj mu)))
      as [Hin|Hout].
    + apply visit_ref_node_at in Hin as [n Hn].
      rewrite (indexed_node_path mu mu' r n Hrun Hn).
      apply record_visits_node_path.
      * intros v Hv. by apply visit_path_joined.
      * apply visit_ref_node_at. by exists n.
    + by rewrite record_visits_node_path_frame.
Qed.

Lemma create_object_paths_idempotent_witness :
  let mu := MkMu (MuObject "a" [MuObject "b" []]) [("x", [3%nat])] [] ∅ in
  let mu' := MkMu (MuObject "a" [MuObject "b" []])
               [("a", []); ("b", [0%nat])] [("a", []); ("a/b", [0%nat])]
               (<[ [0%nat] := "a/b"%string ]> (<[ [] := "a"%string ]> ∅)) in
  create_object_paths mu = Ok mu' /\ create_object_paths mu' = Ok mu'.
Proof.
  intros mu mu'.
  assert (Hrun : create_object_paths mu = Ok mu') by reflexivity.
  split; [exact Hrun|].
  apply (create_object_paths_idempotent mu mu'). exact Hrun.
Defined.

(** X17. The pass writes the [path] of the nodes of the tree only: the
    attribute of any other node object is what it was. *)
Theorem create_object_paths_frame (mu mu' : Mu) (r : ref) :
  create_object_paths mu = Ok mu' ->
  node_at (obj mu) r = None ->
  node_path mu' !! r = node_path mu !! r.
Proof.
  rewrite create_object_paths_visits. intros [= <-] Hnone.
  rewrite record_visits_node_path_frame; [done|].
  intros [n Hn]%visit_ref_node_at. congruence.
Qed.

Lemma create_object_paths_frame_witness :
  let mu := MkMu (MuObject "a" [MuObject "b" []]) [] []
                 {[ [5%nat] := "stale"%string ]} in
  let mu' := MkMu (MuObject "a" [MuObject "b" []])
               [("a", []); ("b", [0%nat])] [("a", []); ("a/b", [0%nat])]
               (<[ [0%nat] := "a/b"%string ]>
                  (<[ [] := "a"%string ]> {[ [5%nat] := "stale"%string ]})) in
  (create_object_paths mu = Ok mu' /\ node_at (obj mu) [5%nat] = None) /\
  node_path mu' !! [5%nat] = node_path mu !! [5%nat].
Proof.
  intros mu mu'.
  assert (Hrun : create_object_paths mu = Ok mu') by reflexivity.
  split; [split; [exact Hrun | reflexivity]|].
  apply (create_object_paths_frame mu mu' [5%nat]); [exact Hrun | reflexivity].
Defined.

(** A key found after assignments to an empty dictionary was assigned,
    with the value found. *)
Lemma dict_get_set_all_elem {V} (k : string) (v : V)
    (kvs : list (string * V)) :
  PyDict.get k (PyDict.set_all kvs []) = Some v -> (k, v) ∈ kvs.
Proof.
  rewrite dict_get_set_all.
  destruct (last (filter (fun kv => kv.1 = k) kvs)) as [[k' v']|] eqn:Hlast;
    [|done].
  apply last_Some_elem_of, list_elem_of_filter in Hlast as [Hk Hin].
  simpl in *. intros [= <-]. by subst.
Qed.

(** X18. The tables hold nodes of the tree only, each under its own name
    and its own path: a name found in [objects] leads to a node of that
    name, a path found in [object_paths] to a node with that path. *)
Theorem create_object_paths_tables_sound (mu : Mu) :
  exists mu',
    create_object_paths mu = Ok mu' /\
    (forall name r,
       PyDict.get name (objects mu') = Some r ->
       exists n, node_at (obj mu) r = Some n /\ transform_name n = name) /\
    (forall p r,
       PyDict.get p (object_paths mu') = Some r ->
       is_Some (node_at (obj mu) r) /\ node_path mu' !! r = Some p).
Proof.
  destruct (create_object_paths_tables mu)
    as (mu' & Hrun & _ & Hobjects & Hpaths).
  exists mu'. split; [done|]. split.
  - intros name r Hget. rewrite Hobjects in Hget.
    apply dict_get_set_all_elem, list_elem_of_fmap in Hget
      as ([[r' anc] name'] & [= -> ->] & Hv).
    destruct (visited_node_at r' (obj mu) anc name' Hv) as (n & Hn & _ & Hname).
    by exists n.
  - intros p r Hget. rewrite Hpaths in Hget.
    apply dict_get_set_all_elem, list_elem_of_fmap in Hget
      as ([[r' anc] name'] & [= -> ->] & Hv).
    destruct (visited_node_at r' (obj mu) anc name' Hv) as (n & Hn & _ & _).
    change (visit_ref (r', anc, name')) with r'.
    split; [by exists n|].
    rewrite (indexed_node_path mu mu' r' n Hrun Hn).
    f_equal. symmetry. by apply (visit_path_joined (obj mu) (r', anc, name')).
Qed.

(** *** The tables as listings *)

Lemma visit_ref_under (i : nat) (name : string) (v : visit) :
  visit_ref (under i name v) = i :: visit_ref v.
Proof. reflexivity. Qed.

(** The references of the visits of the children from index [i] on start
    with an index from [i] on. *)
Lemma subtrees_ref_head (name : string) (cs : list MuObj) (i : nat) (r : ref) :
  r ∈ visit_ref <$>
        subtrees (fun i child => under i name <$> preorder_visits child) i cs ->
  exists j r', r = j :: r' /\ (i <= j)%nat.
Proof.
  intros (v & -> & Hv)%list_elem_of_fmap.
  apply elem_of_subtrees in Hv as (j & child & _ & Hv).
  apply list_elem_of_fmap in Hv as (v' & -> & _).
  exists (i + j)%nat, (visit_ref v'). split; [done | lia].
Qed.

(** No node is visited twice. *)
Lemma preorder_visits_NoDup (node : MuObj) :
  NoDup (visit_ref <$> preorder_visits node).
Proof.
  induction node as [name cs IH] using MuObj_children_ind.
  cbn [preorder_visits]. rewrite fmap_cons. apply NoDup_cons. split.
  - intros (j & r' & Heq & _)%subtrees_ref_head. done.
  - generalize 0%nat.
    induction IH as [|child cs Hchild _ IHcs]; intros i; simpl; [constructor|].
    rewrite fmap_app. apply NoDup_app. split; [|split].
    + rewrite <- list_fmap_compose.
      replace (visit_ref ∘ under i name) with ((i ::.) ∘ visit_ref) by done.
      rewrite list_fmap_compose. by apply (NoDup_fmap_2 (i ::.)).
    + intros r Hr1 Hr2.
      apply subtrees_ref_head in Hr2 as (j & r' & -> & Hj).
      apply list_elem_of_fmap in Hr1 as (v & Heq & Hv).
      apply list_elem_of_fmap in Hv as (v' & -> & _).
      rewrite visit_ref_under in Heq. injection Heq as -> _. lia.
    + apply IHcs.
Qed.

(** A visit is determined by the node it visits. *)
Lemma visit_ref_inj (root : MuObj) (v1 v2 : visit) :
  v1 ∈ preorder_visits root -> v2 ∈ preorder_visits root ->
  visit_ref v1 = visit_ref v2 -> v1 = v2.
Proof.
  destruct v1 as [[r1 a1] n1], v2 as [[r2 a2] n2].
  intros Hv1 Hv2 Heq. change (r1 = r2) in Heq. subst r2.
  destruct (visited_node_at r1 root a1 n1 Hv1) as (m1 & Hm1 & Ha1 & Hn1).
  destruct (visited_node_at r1 root a2 n2 Hv2) as (m2 & Hm2 & Ha2 & Hn2).
  congruence.
Qed.

(** Assigning a key that is not in the dictionary appends it. *)
Lemma dict_set_fresh {V} (k : string) (v : V) (d : list (string * V)) :
  k ∉ d.*1 -> PyDict.set k v d = d ++ [(k, v)].
Proof.
  induction d as [|[k' v'] d IH]; intros Hk; simpl; [done|].
  rewrite fmap_cons in Hk. apply not_elem_of_cons in Hk as [Hne Hk].
  simpl in Hne. rewrite decide_False by done. by rewrite IH.
Qed.

(** Assignments to distinct new keys are appended in order. *)
Lemma dict_set_all_fresh {V} (kvs : list (string * V)) :
  forall d : list (string * V),
    NoDup (d.*1 ++ kvs.*1) -> PyDict.set_all kvs d = d ++ kvs.
Proof.
  unfold PyDict.set_all.
  induction kvs as [|[k v] kvs IH]; intros d Hnd; simpl.
  - by rewrite app_nil_r.
  - rewrite fmap_cons in Hnd. simpl in Hnd.
    rewrite dict_set_fresh.
    + rewrite IH; [by rewrite <- app_assoc|].
      rewrite fmap_app. simpl. rewrite <- app_assoc. done.
    + apply NoDup_app in Hnd as (_ & Hdis & _).
      intros Hk. apply (Hdis k Hk). left.
Qed.

(** With unique paths, distinct visits have distinct paths. *)
Lemma visit_paths_NoDup (root : MuObj) :
  slash_free root = true -> distinct_siblings root = true ->
  NoDup (visit_path <$> preorder_visits root).
Proof.
  intros Hfree Hd. apply NoDup_fmap_2_strong.
  - intros v1 v2 Hv1 Hv2 Hpath.
    apply (visit_ref_inj root); [done | done |].
    destruct v1 as [[r1 a1] n1], v2 as [[r2 a2] n2].
    destruct (visited_node_at r1 root a1 n1 Hv1) as (m1 & Hm1 & _).
    destruct (visited_node_at r2 root a2 n2 Hv2) as (m2 & Hm2 & _).
    apply (joined_path_inj root r1 r2 m1 m2); try done.
    pose proof (visit_path_joined root _ Hv1) as H1.
    pose proof (visit_path_joined root _ Hv2) as H2.
    change (visit_ref (r1, a1, n1)) with r1 in H1.
    change (visit_ref (r2, a2, n2)) with r2 in H2.
    congruence.
  - eapply NoDup_fmap_1. apply preorder_visits_NoDup.
Qed.

(** X19. In a tree where no name contains "/" and no two children of one
    node have the same name, the path table is the list of the nodes in
    pre-order, each with its path: one entry for every node, in the order
    of the traversal. *)
Theorem object_paths_preorder (mu : Mu) :
  slash_free (obj mu) = true -> distinct_siblings (obj mu) = true ->
  exists mu',
    create_object_paths mu = Ok mu' /\
    object_paths mu'
    = (fun v => (visit_path v, visit_ref v)) <$> preorder_visits (obj mu).
Proof.
  intros Hfree Hd.
  destruct (create_object_paths_tables mu) as (mu' & Hrun & _ & _ & Hpaths).
  exists mu'. split; [done|]. rewrite Hpaths.
  rewrite dict_set_all_fresh; [done|]. simpl.
  rewrite <- list_fmap_compose. by apply visit_paths_NoDup.
Qed.

Lemma object_paths_preorder_witness :
  let mu := MkMu (MuObject "a" [MuObject "b" [MuObject "c" []];
                                MuObject "c" []]) [] [] ∅ in
  (slash_free (obj mu) = true /\ distinct_siblings (obj mu) = true) /\
  exists mu',
    create_object_paths mu = Ok mu' /\
    object_paths mu'
    = (fun v => (visit_path v, visit_ref v)) <$> preorder_visits (obj mu).
Proof.
  intros mu. split.
  - split; vm_compute; reflexivity.
  - apply (object_paths_preorder mu); vm_compute; reflexivity.
Defined.

(** ** Curves and the nodes they name *)

Lemma concat_app_sep (sep : string) (l1 l2 : list string) :
  l1 <> [] -> l2 <> [] ->
  String.concat sep (l1 ++ l2)
  = String.concat sep l1 +:+ sep +:+ String.concat sep l2.
Proof.
  intros Hl1. induction l2 as [|x l2 IH] using rev_ind; [done|]. intros _.
  destruct l2 as [|y l2].
  - simpl. by apply concat_snoc.
  - rewrite app_assoc, concat_snoc by (by destruct l1).
    rewrite IH by done. rewrite (concat_snoc sep x (y :: l2)) by done.
    by rewrite !append_assoc.
Qed.

Lemma node_at_app (r : ref) :
  forall (root owner : MuObj) (rel : ref),
    node_at root r = Some owner ->
    node_at root (r ++ rel) = node_at owner rel.
Proof.
  induction r as [|i r IH]; intros root owner rel Hr; simpl in *.
  - by injection Hr as ->.
  - destruct (children root !! i) as [child|]; [|done]. by apply IH.
Qed.

Lemma ancestor_names_app (r : ref) :
  forall (root owner : MuObj) (rel : ref) (above below : list string),
    node_at root r = Some owner ->
    ancestor_names root r = Some above ->
    ancestor_names owner rel = Some below ->
    ancestor_names root (r ++ rel) = Some (above ++ below).
Proof.
  induction r as [|i r IH]; intros root owner rel above below Hr Ha Hb;
    simpl in *.
  - injection Hr as ->. by injection Ha as <-.
  - destruct (children root !! i) as [child|]; [|done].
    destruct (ancestor_names child r) as [above'|] eqn:Ha'; [|done].
    injection Ha as <-.
    by rewrite (IH child owner rel above' below Hr Ha' Hb).
Qed.

(** With unique paths, the path of a node leads to it in the table. *)
Lemma object_paths_lookup (mu mu' : Mu) (r : ref) (n : MuObj) :
  slash_free (obj mu) = true -> distinct_siblings (obj mu) = true ->
  create_object_paths mu = Ok mu' ->
  node_at (obj mu) r = Some n ->
  PyDict.get (joined_path (obj mu) r) (object_paths mu') = Some r.
Proof.
  intros Hfree Hd Hrun Hn.
  destruct (create_object_paths_tables mu) as (mu'' & Hrun' & _ & _ & Hpaths).
  assert (mu'' = mu') as -> by congruence.
  rewrite Hpaths.
  destruct (node_at_visited r (obj mu) n Hn) as (anc & Hanc & Hv).
  apply dict_get_set_all_unique.
  - exists (joined_path (obj mu) r, r). split; [|done].
    apply list_elem_of_fmap. exists (r, anc, transform_name n).
    split; [|done]. f_equal.
    by rewrite (visit_path_joined (obj mu)).
  - intros [p' r'] Hin Hkey.
    apply list_elem_of_fmap in Hin as ([[r0 a0] name0] & Heq & Hv0).
    injection Heq as -> ->. cbn [fst snd] in Hkey |- *.
    change (visit_ref (r0, a0, name0)) with r0.
    destruct (visited_node_at r0 (obj mu) a0 name0 Hv0) as (n0 & Hn0 & _ & _).
    apply (joined_path_inj (obj mu) r0 r n0 n); try done.
    pose proof (visit_path_joined (obj mu) _ Hv0) as Hj.
    change (visit_ref (r0, a0, name0)) with r0 in Hj. congruence.
Qed.

(** X20. In a tree where no name contains "/" and no two children of one
    node have the same name, after the indexing pass a curve of a clip of
    the node [owner] finds the node it names: the owner itself for the
    empty relative path, and for the relative path made of the names from
    a child of the owner down to a descendant, joined by "/" and not
    empty, that descendant. *)
Theorem curve_lookup_descendant {float : Type} (mu : Mu) (r rel : ref)
    (owner target : MuObj) (below : list string) (curve : MuCurve float) :
  slash_free (obj mu) = true -> distinct_siblings (obj mu) = true ->
  node_at (obj mu) r = Some owner ->
  node_at owner rel = Some target ->
  ancestor_names owner rel = Some below ->
  path curve = String.concat "/" (tail (below ++ [transform_name target])) ->
  rel = [] \/ path curve <> EmptyString ->
  exists mu' own_path,
    create_object_paths mu = Ok mu' /\
    node_path mu' !! r = Some own_path /\
    curve_lookup mu' own_path curve
    = Target (curve_mu_path own_path curve) (r ++ rel).
Proof.
  intros Hfree Hd Hr Hrel Hbelow Hpath Hcase.
  destruct (create_object_paths_tables mu) as (mu' & Hrun & _).
  exists mu', (joined_path (obj mu) r).
  split; [done|]. split; [by apply (indexed_node_path mu mu' r owner)|].
  assert (Htarget : node_at (obj mu) (r ++ rel) = Some target)
    by (by rewrite (node_at_app r _ owner)).
  assert (Hkey : curve_mu_path (joined_path (obj mu) r) curve
                 = joined_path (obj mu) (r ++ rel)).
  { destruct (node_at_visited r (obj mu) owner Hr) as (above & Habove & _).
    rewrite (joined_path_node _ owner r above) by done.
    rewrite (joined_path_node _ target (r ++ rel) (above ++ below));
      [|done|by apply (ancestor_names_app r _ owner)].
    unfold curve_mu_path. destruct rel as [|i rel].
    - simpl in Hrel, Hbelow. injection Hrel as <-. injection Hbelow as <-.
      simpl in Hpath. rewrite bool_decide_eq_true_2 by done.
      by rewrite app_nil_r.
    - destruct Hcase as [|Hne]; [done|].
      rewrite bool_decide_eq_false_2 by done.
      simpl in Hbelow.
      destruct (children owner !! i) as [child|]; [|done].
      destruct (ancestor_names child rel) as [below'|]; [|done].
      injection Hbelow as <-. simpl in Hpath.
      rewrite concat_cons_cons. simpl. rewrite Hpath.
      replace ((above ++ transform_name owner :: below')
                 ++ [transform_name target])
        with ((above ++ [transform_name owner])
                ++ (below' ++ [transform_name target]))
        by (by rewrite <- !app_assoc).
      rewrite (concat_app_sep "/" (above ++ [transform_name owner])
                 (below' ++ [transform_name target]));
        [done | by destruct above | by destruct below']. }
  unfold curve_lookup. rewrite Hkey.
  by rewrite (object_paths_lookup mu mu' (r ++ rel) target).
Qed.

Lemma curve_lookup_descendant_witness :
  let root := MuObject "a" [MuObject "b" []; MuObject "c" [MuObject "d" []]] in
  let mu := MkMu root [] [] ∅ in
  let curve := MkCurve Z "c/d" "m_LocalPosition.x" [] in
  (slash_free (obj mu) = true /\ distinct_siblings (obj mu) = true /\
   node_at (obj mu) [] = Some root /\
   node_at root [1; 0]%nat = Some (MuObject "d" []) /\
   ancestor_names root [1; 0]%nat = Some ["a"; "c"]%string /\
   path curve = String.concat "/" (tail (["a"; "c"] ++ ["d"]))%string /\
   ([1; 0]%nat = [] \/ path curve <> EmptyString)) /\
  exists mu' own_path,
    create_object_paths mu = Ok mu' /\
    node_path mu' !! [] = Some own_path /\
    curve_lookup mu' own_path curve
    = Target (curve_mu_path own_path curve) ([] ++ [1; 0]%nat).
Proof.
  intros root mu curve. split.
  - split; [vm_compute; reflexivity|]. split; [vm_compute; reflexivity|].
    split; [reflexivity|]. split; [reflexivity|]. split; [reflexivity|].
    split; [reflexivity|]. right. discriminate.
  - apply (curve_lookup_descendant mu [] [1; 0]%nat root (MuObject "d" [])
             ["a"; "c"]%string curve);
      [vm_compute; reflexivity | vm_compute; reflexivity | reflexivity
      | reflexivity | reflexivity | reflexivity | right; discriminate].
Defined.
